(** * Dependency scanner (src/index.js): a shallow embedding and its properties

    The scanner walks a directory tree, reads the [package.json] of every
    project it finds, keeps for every package name the highest version it has
    met, and writes a report.

    Conventions of the embedding:
    - a JS string is a [string]; a JS number is an IEEE-754 value, a
      [spec_float] of the Standard Library;
    - the builtin [Number] (string to number conversion) is a parameter of
      the development: every statement holds for whatever it computes;
    - a [Map] is a finite map ([gmap string string]), and so is the set of
      own properties of an object; the order of insertion is not kept;
    - a file-system path is the list of its segments, [path.join dir item]
      appends one segment;
    - the file system, the manifests' contents, the clock and the console
      are explicit: functions take what they would read and return what they
      would print. *)

From Stdlib Require Import String Ascii List ZArith Lia Permutation.
From Stdlib Require Import Floats.SpecFloat DecimalString.
From stdpp Require Import gmap strings list fin_maps.

Local Open Scope string_scope.
Local Open Scope list_scope.

(** ** Strings *)

(** The character class of the regular expression [/^[\^~>=<]/]. *)
Definition operatorChars : list ascii :=
  ["^"; "~"; ">"; "="; "<"]%char.

Definition isOperatorChar (c : ascii) : bool :=
  existsb (Ascii.eqb c) operatorChars.

(** [version.replace(/^[\^~>=<]/, "")]: the pattern is anchored at the start
    of the string and is not global, so at most the first character goes. *)
Definition cleanVersion (version : string) : string :=
  match version with
  | String c rest => if isOperatorChar c then rest else version
  | EmptyString => version
  end.

(** [s.split(".")]: the pieces between the dots; the empty string gives one
    empty piece. *)
Fixpoint splitDot (s : string) : list string :=
  match s with
  | EmptyString => [EmptyString]
  | String c rest =>
      if Ascii.eqb c "."%char then EmptyString :: splitDot rest
      else match splitDot rest with
           | piece :: pieces => String c piece :: pieces
           | [] => [String c EmptyString]
           end
  end.

(** Number of operator characters a string starts with. *)
Fixpoint leadingOperators (s : string) : nat :=
  match s with
  | String c rest => if isOperatorChar c then S (leadingOperators rest) else 0
  | EmptyString => 0
  end.

(** The string holds no dot. *)
Fixpoint dotFree (s : string) : bool :=
  match s with
  | String c rest => negb (Ascii.eqb c "."%char) && dotFree rest
  | EmptyString => true
  end.

(** ** Numbers *)

Definition jsZero : spec_float := S754_zero false.

(** [x > y] and [x < y] on numbers. *)
Definition jsGt (x y : spec_float) : bool := SFltb y x.
Definition jsLt (x y : spec_float) : bool := SFltb x y.

(** A number is falsy when it is NaN, [0] or [-0]. *)
Definition isFalsyNumber (x : spec_float) : bool :=
  match x with
  | S754_nan | S754_zero _ => true
  | _ => false
  end.

(** [parts[i] || 0]: [parts[i]] is [undefined] past the end of the array. *)
Definition partOrZero (parts : list spec_float) (i : nat) : spec_float :=
  match parts !! i with
  | Some x => if isFalsyNumber x then jsZero else x
  | None => jsZero
  end.

(** The [for] loop of [isVersionHigher], started at index [i] with [steps]
    iterations left ([maxLength - i]). *)
Fixpoint compareFrom (v1Parts v2Parts : list spec_float) (i steps : nat) : bool :=
  match steps with
  | O => false
  | S steps' =>
      let v1Part := partOrZero v1Parts i in
      let v2Part := partOrZero v2Parts i in
      if jsGt v1Part v2Part then true
      else if jsLt v1Part v2Part then false
      else compareFrom v1Parts v2Parts (S i) steps'
  end.

(** The conversion on the strings the examples use: the empty string is [0],
    a string of decimal digits is that integer rounded to binary64, and a
    string with any other character (as the [0-beta] of [1.0.0-beta]) is
    NaN. Signs, exponents, radix prefixes and surrounding blanks, which the
    builtin also reads, do not occur in the concrete runs below. *)
Definition digitOf (c : ascii) : option N :=
  let n := N_of_ascii c in
  if ((48 <=? n) && (n <=? 57))%N then Some (n - 48)%N else None.

Fixpoint digitsValue (s : string) (acc : N) : option N :=
  match s with
  | EmptyString => Some acc
  | String c rest =>
      match digitOf c with
      | Some d => digitsValue rest (10 * acc + d)%N
      | None => None
      end
  end.

Definition decimalNumber (s : string) : spec_float :=
  match digitsValue s 0%N with
  | Some n => binary_normalize 53 1024 (Z.of_N n) 0 false
  | None => S754_nan
  end.

(** ** The file system *)

Definition path : Type := list string.

(** [path.join(dir, item)] *)
Definition pathJoin (dir : path) (item : string) : path := dir ++ [item].

#[local] Set Warnings "-register-all".

(** What the walk can meet at a path. [manifest] is the answer of
    [fs.existsSync(path.join(p, "package.json"))] for a directory [p]. *)
Inductive fsnode : Type :=
| File
| StatError (message : string)
| DirUnreadable (manifest : bool) (message : string)
| Dir (manifest : bool) (items : list (string * fsnode)).

Definition hasManifest (node : fsnode) : bool :=
  match node with
  | Dir manifest _ | DirUnreadable manifest _ => manifest
  | _ => false
  end.

(** ** Console lines and file-system calls, in the order they happen *)

Inductive scanError : Type :=
| VegaFolderNotFound (root : path)
| Uncaught (message : string).

Inductive consoleLine : Type :=
| ScanningProjectsIn (root : path)
| FoundProjects (count : nat)
| Processing (projectPath : path)
| CouldNotReadDirectory (dir : path) (message : string)
| CouldNotProcess (packageJsonPath : path) (message : string)
| ResultsSavedTo (outputPath : path)
| CompletedSuccessfully
| FoundDependencies (dependencies devDependencies : nat)
| ErrorDuringScanning (cause : scanError).

Inductive event : Type :=
| ReadDir (dir : path) (failure : option string)
| Stat (p : path) (failure : option string)
| Exists (p : path) (found : bool)
| ReadFile (p : path)
| WriteFile (p : path) (failure : option string)
| Console (line : consoleLine).

(** ** Project Finder *)

Section FindProjects.

Variable findProjects : path -> fsnode -> list path * list event.

(** The [for (const item of items)] loop of [findProjects]. A failing
    [statSync] leaves the loop for the [catch]: what was pushed before stays
    in [projects], the remaining items are not looked at. *)
Fixpoint scanItems (dir : path) (items : list (string * fsnode))
  : list path * list event :=
  match items with
  | [] => ([], [])
  | (item, child) :: rest =>
      let fullPath := pathJoin dir item in
      match child with
      | StatError message =>
          ([], [Stat fullPath (Some message);
                Console (CouldNotReadDirectory dir message)])
      | File =>
          let '(projects, trace) := scanItems dir rest in
          (projects, Stat fullPath None :: trace)
      | _ =>
          let packageJsonPath := pathJoin fullPath "package.json" in
          if hasManifest child then
            let '(projects, trace) := scanItems dir rest in
            (fullPath :: projects,
             Stat fullPath None :: Exists packageJsonPath true :: trace)
          else
            let '(found, inner) := findProjects fullPath child in
            let '(projects, trace) := scanItems dir rest in
            (found ++ projects,
             Stat fullPath None :: Exists packageJsonPath false
               :: inner ++ trace)
      end
  end.

End FindProjects.

(** [fs.readdirSync(dir)] gives the items of a readable directory and throws
    on anything else; the [catch] turns the error into a warning and the
    empty list is returned. *)
Fixpoint findProjects (dir : path) (node : fsnode) {struct node}
  : list path * list event :=
  match node with
  | Dir _ items =>
      let '(projects, trace) := scanItems findProjects dir items in
      (projects, ReadDir dir None :: trace)
  | DirUnreadable _ message | StatError message =>
      ([], [ReadDir dir (Some message);
            Console (CouldNotReadDirectory dir message)])
  | File =>
      ([], [ReadDir dir (Some "ENOTDIR: not a directory");
            Console (CouldNotReadDirectory dir "ENOTDIR: not a directory")])
  end.

(** *** Notions used to state what the walk does *)

(** [q] lies strictly below [root]. *)
Definition strictlyBelow (root q : path) : Prop :=
  exists item rest, q = root ++ item :: rest.

(** The walk tested directory [d] for a manifest and found one. *)
Definition foundManifestIn (events : list event) (d : path) : Prop :=
  In (Exists (pathJoin d "package.json") true) events.

(** Directory [d] is recorded as a project, neither it nor anything below it
    is listed, and nothing below it is recorded. *)
Definition treatedAsLeaf (projects : list path) (events : list event)
    (d : path) : Prop :=
  In d projects
  /\ (forall q failure, In (ReadDir q failure) events -> ~ d `prefix_of` q)
  /\ (forall q, In q projects -> d `prefix_of` q -> q = d).

(** [q] is [dir], then [name], then anything. *)
Definition under (dir : path) (name : string) (q : path) : Prop :=
  exists rest, q = dir ++ name :: rest.

(** The paths a walk has to do with: the projects it returns, the
    directories it lists, the directories it finds a manifest in. *)
Definition touches (result : list path * list event) (q : path) : Prop :=
  In q (fst result)
  \/ (exists failure, In (ReadDir q failure) (snd result))
  \/ foundManifestIn (snd result) q.

Definition isDirectory (node : fsnode) : bool :=
  match node with
  | Dir _ _ | DirUnreadable _ _ => true
  | _ => false
  end.

(** No directory lists the same name twice. *)
Fixpoint uniqueNames (node : fsnode) : bool :=
  match node with
  | Dir _ items =>
      bool_decide (NoDup (map fst items))
      && forallb (fun entry => uniqueNames (snd entry)) items
  | _ => true
  end.

(** The same tree where every directory that cannot be listed is an empty
    directory instead. *)
Fixpoint unreadableAsEmpty (node : fsnode) : fsnode :=
  match node with
  | DirUnreadable manifest _ => Dir manifest []
  | Dir manifest items =>
      Dir manifest
        (map (fun entry => (fst entry, unreadableAsEmpty (snd entry))) items)
  | _ => node
  end.

(** The directories of the scanned tree that directly contain a manifest:
    the root when it does, and every directory the walk finds one in. *)
Definition manifestDirectory (root : path) (tree : fsnode) (d : path) : Prop :=
  (d = root /\ hasManifest tree = true)
  \/ foundManifestIn (snd (findProjects root tree)) d.

(** Every directory of the scanned tree that directly contains a manifest is
    recorded and not entered. *)
Definition neverDescendsIntoProjects (root : path) (tree : fsnode) : Prop :=
  forall d, manifestDirectory root tree d ->
    treatedAsLeaf (fst (findProjects root tree)) (snd (findProjects root tree)) d.

(** No [statSync] fails among these items. *)
Definition allStatted (items : list (string * fsnode)) : Prop :=
  forall item message, ~ In (item, StatError message) items.

(** The error [fs.statSync] throws on a node, if any. *)
Definition statFailure (node : fsnode) : option string :=
  match node with
  | StatError message => Some message
  | _ => None
  end.

(** The directory reached from a node by the names of [suffix] holds a
    manifest, and no directory passed on the way, below the node, does. *)
Inductive shallowest : fsnode -> list string -> Prop :=
| shallowest_here (manifest : bool) (items : list (string * fsnode))
    (name : string) (child : fsnode) :
    In (name, child) items -> hasManifest child = true ->
    shallowest (Dir manifest items) [name]
| shallowest_below (manifest : bool) (items : list (string * fsnode))
    (name : string) (child : fsnode) (rest : list string) :
    In (name, child) items -> hasManifest child = false ->
    shallowest child rest ->
    shallowest (Dir manifest items) (name :: rest).

(** No [statSync] fails anywhere in the tree. *)
Fixpoint statsSucceed (node : fsnode) : bool :=
  match node with
  | StatError _ => false
  | Dir _ items => forallb (fun entry => statsSucceed (snd entry)) items
  | _ => true
  end.

(** The same tree where every directory with a manifest, below the node, is
    empty. *)
Fixpoint withoutProjectContents (node : fsnode) : fsnode :=
  match node with
  | Dir manifest items =>
      Dir manifest
        (map (fun entry =>
                (fst entry,
                 if hasManifest (snd entry) then Dir true []
                 else withoutProjectContents (snd entry)))
           items)
  | _ => node
  end.

(** The line reports a listing or a [statSync] that failed among the events:
    it is the warning for a directory whose listing failed, or one of whose
    items could not be examined. *)
Definition reportsFailureIn (events : list event) (line : consoleLine) : Prop :=
  exists d message,
    line = CouldNotReadDirectory d message
    /\ (In (ReadDir d (Some message)) events
        \/ exists item, In (Stat (pathJoin d item) (Some message)) events).

(** The kinds of event a walk can produce. *)
Definition isWalkEvent (e : event) : bool :=
  match e with
  | ReadDir _ _ | Stat _ _ | Exists _ _
  | Console (CouldNotReadDirectory _ _) => true
  | _ => false
  end.

(** The kinds of event the processing of projects can produce. *)
Definition isProcessingEvent (e : event) : bool :=
  match e with
  | ReadFile _ | Console (Processing _) | Console (CouldNotProcess _ _) => true
  | _ => false
  end.

(** The projects announced by [Processing: ...] lines, and the files read,
    in order. *)
Definition processedPath (e : event) : option path :=
  match e with
  | Console (Processing projectPath) => Some projectPath
  | _ => None
  end.

Definition readPath (e : event) : option path :=
  match e with
  | ReadFile p => Some p
  | _ => None
  end.

(** ** Manifests *)

(** A value produced by [JSON.parse]. The properties of an object are listed
    in the order [Object.entries] enumerates them. *)
Inductive json : Type :=
| JNull
| JBool (b : bool)
| JNumber (x : spec_float)
| JString (s : string)
| JArray (elements : list json)
| JObject (properties : list (string * json)).

(** [fs.readFileSync] followed by [JSON.parse] on a manifest path. *)
Inductive manifestFile : Type :=
| ReadFails (message : string)
| ParseFails (message : string)
| Parses (packageJson : json).

Fixpoint lookupProperty (properties : list (string * json)) (key : string)
  : option json :=
  match properties with
  | [] => None
  | (k, v) :: rest => if String.eqb k key then Some v else lookupProperty rest key
  end.

(** [value.key] for the two keys the scanner reads, [dependencies] and
    [devDependencies]: [None] is [undefined]; reading a property of [null]
    throws a [TypeError]. *)
Definition getProperty (value : json) (key : string) : string + option json :=
  match value with
  | JNull => inl ("Cannot read properties of null (reading '" +:+ key +:+ "')")
  | JObject properties => inr (lookupProperty properties key)
  | _ => inr None
  end.

(** The condition of [if (packageJson.dependencies)]. *)
Definition isTruthy (value : option json) : bool :=
  match value with
  | None | Some JNull => false
  | Some (JBool b) => b
  | Some (JNumber x) => negb (isFalsyNumber x)
  | Some (JString s) => negb (String.eqb s "")
  | Some (JArray _) | Some (JObject _) => true
  end.

Definition indexKey (i : nat) : string :=
  NilEmpty.string_of_uint (Nat.to_uint i).

Fixpoint charactersOf (s : string) : list json :=
  match s with
  | EmptyString => []
  | String c rest => JString (String c EmptyString) :: charactersOf rest
  end.

(** [Object.entries(deps)] for a truthy [deps]: the properties of an object,
    the indexed elements of an array or characters of a string, nothing for
    a number or a boolean. *)
Definition objectEntries (deps : json) : list (string * json) :=
  match deps with
  | JObject properties => properties
  | JArray elements => imap (fun i element => (indexKey i, element)) elements
  | JString s => imap (fun i c => (indexKey i, c)) (charactersOf s)
  | _ => []
  end.

(** [cleanVersion(version)] on a parsed value: only a string has a
    [replace] method, on anything else the call throws a [TypeError]. *)
Definition cleanVersionOf (version : json) : string + string :=
  match version with
  | JString s => inr (cleanVersion s)
  | JNull => inl "Cannot read properties of null (reading 'replace')"
  | _ => inl "version.replace is not a function"
  end.

(** *** Notions used to state what the merger sees *)

Inductive group : Type := Runtime | Development.

Definition groupKey (g : group) : string :=
  match g with
  | Runtime => "dependencies"
  | Development => "devDependencies"
  end.

Definition groupOf {A : Type} (g : group) (maps : A * A) : A :=
  match g with
  | Runtime => fst maps
  | Development => snd maps
  end.

(** The entries a parsed manifest declares in a group: those of
    [packageJson[key]] when it is truthy. *)
Definition declared (g : group) (packageJson : json) : list (string * json) :=
  match getProperty packageJson (groupKey g) with
  | inr (Some deps) => if isTruthy (Some deps) then objectEntries deps else []
  | _ => []
  end.

(** The entries up to the first whose version is not a string, as name and
    cleaned version. *)
Fixpoint stringPrefix (entries : list (string * json)) : list (string * string) :=
  match entries with
  | (name, JString raw) :: rest => (name, cleanVersion raw) :: stringPrefix rest
  | _ => []
  end.

Definition allStrings (entries : list (string * json)) : bool :=
  forallb (fun entry => match snd entry with JString _ => true | _ => false end)
    entries.

(** A manifest is processed successfully when it is read, parsed, and merged
    without an error, that is without a warning. *)
Definition processedSuccessfully (file : manifestFile) : bool :=
  match file with
  | Parses JNull => false
  | Parses packageJson =>
      allStrings (declared Runtime packageJson)
      && allStrings (declared Development packageJson)
  | _ => false
  end.

(** What the merger of group [g] meets in one manifest, in order. The
    development group is not reached when the runtime group threw. *)
Definition seenIn (g : group) (file : manifestFile) : list (string * string) :=
  match file with
  | Parses packageJson =>
      match g with
      | Runtime => stringPrefix (declared Runtime packageJson)
      | Development =>
          if allStrings (declared Runtime packageJson)
          then stringPrefix (declared Development packageJson)
          else []
      end
  | _ => []
  end.

(** What the merger of group [g] meets over a whole run, in order. *)
Definition seen (g : group) (manifestAt : path -> manifestFile)
    (projects : list path) : list (string * string) :=
  flat_map (fun projectPath =>
              seenIn g (manifestAt (pathJoin projectPath "package.json")))
    projects.

(** The versions of the entries named [name], in order. *)
Definition versionsOf (name : string) (entries : list (string * string))
  : list string :=
  map snd (filter (fun entry => fst entry = name) entries).

Definition failsToLoad (file : manifestFile) : option string :=
  match file with
  | ReadFails message | ParseFails message => Some message
  | Parses _ => None
  end.

(** Raw entries with their versions cleaned. *)
Definition cleanedEntries (entries : list (string * string))
  : list (string * string) :=
  map (fun entry => (fst entry, cleanVersion (snd entry))) entries.

(** A group of raw entries as the object [processDependencyGroup] receives. *)
Definition asObject (entries : list (string * string)) : json :=
  JObject (map (fun entry => (fst entry, JString (snd entry))) entries).

(** ** The report *)

Record summaryCounts : Type := {
  totalDependencies : nat;
  totalDevDependencies : nat
}.

Record report : Type := {
  scanDate : string;
  vegaPath : path;
  totalProjects : nat;
  dependencies : gmap string string;
  devDependencies : gmap string string;
  summary : summaryCounts
}.

(** The last line of a successful run, with
    [Object.keys(result.dependencies).length] and the same for
    [devDependencies]. *)
Definition foundLine (result : report) : consoleLine :=
  FoundDependencies (size (dependencies result)) (size (devDependencies result)).

(** [const VEGA_PATH = "D:\\Work\\Vega"] *)
Definition VEGA_PATH : path := ["D:"; "Work"; "Vega"].

(** What a run reads from outside the program. The tree under the root is
    read twice, when the projects are discovered and when the report is
    built, and may have changed in between. *)
Record world : Type := {
  rootExists : bool;
  discoveryTree : fsnode;
  manifestAt : path -> manifestFile;
  reportTree : fsnode;
  now : string;
  scriptDir : path;
  writeFailure : option string
}.

Record outcome : Type := {
  trace : list event;
  exitCode : nat;
  written : option report
}.

(** ** A concrete run *)

(** The root holds a manifest of its own and five items: project [A] with a
    nested project [A/B], project [B], project [C] whose manifest is
    malformed, a directory that cannot be listed, and a plain file. *)
Definition scenarioTree : fsnode :=
  Dir true
    [("A", Dir true [("B", Dir true [])]);
     ("B", Dir true []);
     ("C", Dir true []);
     ("locked", DirUnreadable false "EACCES: permission denied");
     ("notes.txt", File)].

Definition projectA : path := pathJoin VEGA_PATH "A".
Definition projectB : path := pathJoin VEGA_PATH "B".
Definition projectC : path := pathJoin VEGA_PATH "C".

Definition manifestA : json :=
  JObject [("dependencies", JObject [("lib", JString "^1.2.0")])].

Definition manifestB : json :=
  JObject [("dependencies", JObject [("lib", JString "1.5.0")]);
           ("devDependencies", JObject [("tool", JString "~2.0")])].

Definition scenarioManifests (p : path) : manifestFile :=
  if decide (p = pathJoin projectA "package.json") then Parses manifestA
  else if decide (p = pathJoin projectB "package.json") then Parses manifestB
  else if decide (p = pathJoin projectC "package.json")
       then ParseFails "Unexpected end of JSON input"
       else ReadFails "ENOENT: no such file or directory".

(** A manifest that declares a dependency named [__proto__]. *)
Definition manifestProto : json :=
  JObject [("dependencies", JObject [("__proto__", JString "1.0.0")])].

Definition protoManifests (p : path) : manifestFile :=
  if decide (p = pathJoin projectA "package.json") then Parses manifestProto
  else ReadFails "ENOENT: no such file or directory".

(** The runtime mapping this run ends with. *)
Definition scenarioDependencies : gmap string string := {["lib" := "1.5.0"]}.

(** Between discovery and the building of the report a project [D] appears
    under the root. *)
Definition scenarioWorld : world :=
  {| rootExists := true;
     discoveryTree := scenarioTree;
     manifestAt := scenarioManifests;
     reportTree :=
       Dir true
         [("A", Dir true []); ("B", Dir true []); ("C", Dir true []);
          ("D", Dir true [])];
     now := "2024-05-01T10:00:00.000Z";
     scriptDir := ["D:"; "Work"; "tools"];
     writeFailure := None |}.

(** A manifest whose second runtime entry has a version that is not a
    string. *)
Definition manifestWithBadVersion : json :=
  JObject [("dependencies",
            JObject [("lib", JString "^1.2.0"); ("other", JNumber jsZero)]);
           ("devDependencies", JObject [("tool", JString "~2.0")])].

(** The same run with the tree unchanged between the two walks. *)
Definition steadyWorld : world :=
  {| rootExists := true;
     discoveryTree := scenarioTree;
     manifestAt := scenarioManifests;
     reportTree := scenarioTree;
     now := "2024-05-01T10:00:00.000Z";
     scriptDir := ["D:"; "Work"; "tools"];
     writeFailure := None |}.

(** A root that lists project [A], a link whose target is gone, on which
    [statSync] throws, and project [B]. *)
Definition danglingLinkTree : fsnode :=
  Dir false
    [("A", Dir true []);
     ("broken", StatError "ENOENT: no such file or directory");
     ("B", Dir true [])].

(** The same root where the item between the two projects is a directory
    that cannot be listed. *)
Definition lockedItemTree : fsnode :=
  Dir false
    [("A", Dir true []);
     ("broken", DirUnreadable false "EACCES: permission denied");
     ("B", Dir true [])].

Section Scanner.

(** The builtin string-to-number conversion. *)
Variable Number : string -> spec_float.

(** ** Version Comparator *)

Definition versionParts (version : string) : list spec_float :=
  map Number (splitDot version).

Definition isVersionHigher (version1 version2 : string) : bool :=
  let v1Parts := versionParts version1 in
  let v2Parts := versionParts version2 in
  let maxLength := Nat.max (length v1Parts) (length v2Parts) in
  compareFrom v1Parts v2Parts 0 maxLength.

(** ** Dependency Merger *)

(** The body of the loop of [processDependencyGroup] once the version is
    cleaned: [has], [get], and [set] when the name is new or the version
    higher. *)
Definition mergeVersion (targetMap : gmap string string)
    (name cleanVersionStr : string) : gmap string string :=
  match targetMap !! name with
  | Some existingVersion =>
      if isVersionHigher cleanVersionStr existingVersion
      then <[name := cleanVersionStr]> targetMap
      else targetMap
  | None => <[name := cleanVersionStr]> targetMap
  end.

(** The loop over the entries. The map is mutated in place: when an entry
    makes [cleanVersion] throw, the entries merged before it stay merged.
    The second component is the message of the error thrown, if any. *)
Fixpoint mergeEntries (entries : list (string * json))
    (targetMap : gmap string string) : gmap string string * option string :=
  match entries with
  | [] => (targetMap, None)
  | (name, version) :: rest =>
      match cleanVersionOf version with
      | inl message => (targetMap, Some message)
      | inr cleanVersionStr =>
          mergeEntries rest (mergeVersion targetMap name cleanVersionStr)
      end
  end.

Definition processDependencyGroup (deps : json)
    (targetMap : gmap string string) : gmap string string * option string :=
  mergeEntries (objectEntries deps) targetMap.

(** ** Project Processor *)

(** [if (packageJson[key]) processDependencyGroup(packageJson[key], targetMap)] *)
Definition mergeGroup (packageJson : json) (key : string)
    (targetMap : gmap string string) : gmap string string * option string :=
  match getProperty packageJson key with
  | inl message => (targetMap, Some message)
  | inr None => (targetMap, None)
  | inr (Some deps) =>
      if isTruthy (Some deps) then processDependencyGroup deps targetMap
      else (targetMap, None)
  end.

(** The [try] block after [JSON.parse]: both maps as the block leaves them,
    and the message of the error that ended it early, if any. *)
Definition mergeManifest (packageJson : json)
    (dependencies devDependencies : gmap string string)
  : gmap string string * gmap string string * option string :=
  match mergeGroup packageJson "dependencies" dependencies with
  | (dependencies', Some message) =>
      (dependencies', devDependencies, Some message)
  | (dependencies', None) =>
      let '(devDependencies', thrown) :=
        mergeGroup packageJson "devDependencies" devDependencies in
      (dependencies', devDependencies', thrown)
  end.

Definition processProject (manifestAt : path -> manifestFile)
    (projectPath : path) (dependencies devDependencies : gmap string string)
  : gmap string string * gmap string string * list event :=
  let packageJsonPath := pathJoin projectPath "package.json" in
  let warning message := Console (CouldNotProcess packageJsonPath message) in
  match manifestAt packageJsonPath with
  | ReadFails message | ParseFails message =>
      (dependencies, devDependencies,
       [ReadFile packageJsonPath; warning message])
  | Parses packageJson =>
      match mergeManifest packageJson dependencies devDependencies with
      | (dependencies', devDependencies', Some message) =>
          (dependencies', devDependencies',
           [ReadFile packageJsonPath; warning message])
      | (dependencies', devDependencies', None) =>
          (dependencies', devDependencies', [ReadFile packageJsonPath])
      end
  end.

(** The [for (const projectPath of projects)] loop of [scanProjects]. *)
Fixpoint processProjects (manifestAt : path -> manifestFile)
    (projects : list path) (dependencies devDependencies : gmap string string)
  : gmap string string * gmap string string * list event :=
  match projects with
  | [] => (dependencies, devDependencies, [])
  | projectPath :: rest =>
      let '(dependencies', devDependencies', here) :=
        processProject manifestAt projectPath dependencies devDependencies in
      let '(dependencies'', devDependencies'', later) :=
        processProjects manifestAt rest dependencies' devDependencies' in
      (dependencies'', devDependencies'',
       Console (Processing projectPath) :: here ++ later)
  end.

(** ** Result Builder, Report Writer, Orchestrator *)

(** [obj[name] = value] on an object created by [{}], given by its own
    properties. The key [__proto__] is not created: the assignment reaches
    the setter that [Object.prototype] provides for it, which does nothing
    when the value is a string. Every other key becomes a property. *)
Definition setProperty (obj : gmap string string) (name value : string)
  : gmap string string :=
  if decide (name = "__proto__") then obj else <[name := value]> obj.

(** [for (const [name, version] of versions) obj[name] = `^${version}`] *)
Definition caretPrefixed (versions : gmap string string) : gmap string string :=
  map_fold (fun name version obj => setProperty obj name ("^" +:+ version))
    ∅ versions.

(** The tree and the clock are what [findProjects(vegaPath)] and
    [new Date()] read when the result is generated. *)
Definition generateResult (tree : fsnode) (now : string)
    (dependencies devDependencies : gmap string string) (vegaPath : path)
  : report * list event :=
  let '(projects, walked) := findProjects vegaPath tree in
  ({| scanDate := now;
      vegaPath := vegaPath;
      totalProjects := length projects;
      dependencies := caretPrefixed dependencies;
      devDependencies := caretPrefixed devDependencies;
      summary := {| totalDependencies := size dependencies;
                    totalDevDependencies := size devDependencies |} |},
   walked).

(** [fs.writeFileSync] either writes or throws; the second component is the
    message of the error thrown, if any. *)
Definition saveResult (scriptDir : path) (writeFailure : option string)
    (result : report) : list event * option string :=
  let outputPath := pathJoin scriptDir "list.json" in
  match writeFailure with
  | None =>
      ([WriteFile outputPath None; Console (ResultsSavedTo outputPath)], None)
  | Some message => ([WriteFile outputPath (Some message)], Some message)
  end.

Definition scanProjects (w : world) : outcome :=
  let start :=
    [Console (ScanningProjectsIn VEGA_PATH); Exists VEGA_PATH (rootExists w)] in
  if rootExists w then
    let '(projects, found) := findProjects VEGA_PATH (discoveryTree w) in
    let '(dependencies, devDependencies, processed) :=
      processProjects (manifestAt w) projects ∅ ∅ in
    let '(result, walked) :=
      generateResult (reportTree w) (now w) dependencies devDependencies
        VEGA_PATH in
    let before :=
      start ++ found ++ [Console (FoundProjects (length projects))]
        ++ processed ++ walked in
    match saveResult (scriptDir w) (writeFailure w) result with
    | (saved, None) =>
        {| trace := before ++ saved ++
             [Console CompletedSuccessfully; Console (foundLine result)];
           exitCode := 0;
           written := Some result |}
    | (saved, Some message) =>
        {| trace := before ++ saved ++
             [Console (ErrorDuringScanning (Uncaught message))];
           exitCode := 1;
           written := None |}
    end
  else
    {| trace := start ++
         [Console (ErrorDuringScanning (VegaFolderNotFound VEGA_PATH))];
       exitCode := 1;
       written := None |}.

(** ** Notions used to state the properties *)

(** *** The comparison as the specification words it *)


Definition sameNumber (x y : spec_float) : Prop := SFcompare x y = Some Eq.

(** Left to right, the first place where two sequences of numbers differ
    holds a greater number in the first. *)
Definition lexGreater (f g : nat -> spec_float) : Prop :=
  exists i,
    (forall j, j < i -> sameNumber (f j) (g j))
    /\ SFcompare (f i) (g i) = Some Gt.



(** *** Highest version, first seen *)

(** [stored] occurs in [versions], is ranked higher than every version
    before that occurrence, and no version after it is ranked higher. *)
Definition firstHighest (versions : list string) (stored : string) : Prop :=
  exists before after,
    versions = before ++ stored :: after
    /\ (forall v, In v before -> isVersionHigher stored v = true)
    /\ (forall v, In v after -> isVersionHigher v stored = false).

(** The fold the merger performs over names and cleaned versions. *)
Definition mergeAll (entries : list (string * string))
    (targetMap : gmap string string) : gmap string string :=
  foldl (fun m entry => mergeVersion m (fst entry) (snd entry)) targetMap entries.

(** *** Merging in any order *)

(** One call of [processDependencyGroup] per group of raw entries. *)
Definition mergeGroups (groups : list (list (string * string)))
    (targetMap : gmap string string) : gmap string string :=
  foldl (fun m entries => fst (processDependencyGroup (asObject entries) m))
    targetMap groups.

(** The comparator ranks any two distinct cleaned versions of the entries
    one above the other. *)
Definition totallyOrders (entries : list (string * string)) : Prop :=
  forall e1 e2, In e1 entries -> In e2 entries ->
    cleanVersion (snd e1) <> cleanVersion (snd e2) ->
    isVersionHigher (cleanVersion (snd e1)) (cleanVersion (snd e2)) = true
    \/ isVersionHigher (cleanVersion (snd e2)) (cleanVersion (snd e1)) = true.

(** The comparator ranks any two distinct versions met under the same name
    one above the other. *)
Definition noTiesAmong (entries : list (string * string)) : Prop :=
  forall name v1 v2, In (name, v1) entries -> In (name, v2) entries ->
    v1 <> v2 ->
    isVersionHigher v1 v2 = true \/ isVersionHigher v2 v1 = true.

(** * Properties *)

(** ** Numbers that are not NaN are totally preordered *)

Local Ltac order_cases :=
  repeat match goal with
    | s : bool |- _ => destruct s
    end;
  simpl in *; try congruence;
  repeat match goal with
    | H : context [(?a ?= ?b)%Z] |- _ =>
        let E := fresh in destruct (Z.compare_spec a b) as [E|E|E]
    | |- context [(?a ?= ?b)%Z] =>
        let E := fresh in destruct (Z.compare_spec a b) as [E|E|E]
    | H : context [(?a ?= ?b)%positive] |- _ =>
        let E := fresh in destruct (Pos.compare_spec a b) as [E|E|E]
    | |- context [(?a ?= ?b)%positive] =>
        let E := fresh in destruct (Pos.compare_spec a b) as [E|E|E]
    end;
  simpl in *; try congruence; try lia.

Lemma SFcompare_antisym (x y : spec_float) :
  SFcompare y x = CompOpp <$> SFcompare x y.
Proof.
  destruct x as [s1|s1| |s1 m1 e1], y as [s2|s2| |s2 m2 e2]; simpl; try done;
    change (Pos.compare_cont Eq) with Pos.compare in *; order_cases.
Qed.

Lemma SFcompare_refl (x : spec_float) :
  x <> S754_nan -> SFcompare x x = Some Eq.
Proof.
  destruct x as [s|s| |s m e]; simpl; try done; destruct s; try done;
    rewrite Z.compare_refl; change (Pos.compare_cont Eq m m) with (m ?= m)%positive;
    by rewrite Pos.compare_refl.
Qed.

Lemma SFcompare_total (x y : spec_float) :
  x <> S754_nan -> y <> S754_nan -> exists c, SFcompare x y = Some c.
Proof.
  destruct x as [s1|s1| |s1 m1 e1], y as [s2|s2| |s2 m2 e2]; simpl;
    intros; try done; eauto.
Qed.

Lemma SFcompare_Gt_Lt (x y : spec_float) :
  SFcompare x y = Some Gt <-> SFcompare y x = Some Lt.
Proof.
  rewrite (SFcompare_antisym x y).
  destruct (SFcompare x y) as [[]|]; simpl; split; congruence.
Qed.

Lemma SFcompare_Eq_sym (x y : spec_float) :
  SFcompare x y = Some Eq -> SFcompare y x = Some Eq.
Proof. intros H. by rewrite SFcompare_antisym, H. Qed.

(** [SFcompare] composes: an equality on either side keeps the other
    answer, and two equal answers give that answer. *)
Lemma SFcompare_trans (x y z : spec_float) (c1 c2 : comparison) :
  SFcompare x y = Some c1 -> SFcompare y z = Some c2 ->
  (c1 = Eq -> SFcompare x z = Some c2)
  /\ (c2 = Eq -> SFcompare x z = Some c1)
  /\ (c1 = c2 -> SFcompare x z = Some c1).
Proof.
  destruct x as [s1|s1| |s1 m1 e1], y as [s2|s2| |s2 m2 e2],
    z as [s3|s3| |s3 m3 e3]; simpl; intros H1 H2; try done;
    change (Pos.compare_cont Eq) with Pos.compare in *;
    injection H1 as <-; injection H2 as <-;
    (split; [|split]); intros; order_cases.
Qed.

(** ** The lexicographic order on sequences of numbers *)

Lemma lexGreater_trans (f g h : nat -> spec_float) :
  lexGreater f g -> lexGreater g h -> lexGreater f h.
Proof.
  intros (i & Hi & Gi) (k & Hk & Gk).
  destruct (lt_eq_lt_dec i k) as [[L|E]|L].
  - exists i. split.
    + intros j Hj.
      destruct (SFcompare_trans _ _ _ _ _ (Hi j Hj) (Hk j ltac:(lia))) as (T & _).
      by apply T.
    + destruct (SFcompare_trans _ _ _ _ _ Gi (Hk i L)) as (_ & T & _).
      by apply T.
  - subst k. exists i. split.
    + intros j Hj.
      destruct (SFcompare_trans _ _ _ _ _ (Hi j Hj) (Hk j Hj)) as (T & _).
      by apply T.
    + destruct (SFcompare_trans _ _ _ _ _ Gi Gk) as (_ & _ & T).
      by apply T.
  - exists k. split.
    + intros j Hj.
      destruct (SFcompare_trans _ _ _ _ _ (Hi j ltac:(lia)) (Hk j Hj)) as (T & _).
      by apply T.
    + destruct (SFcompare_trans _ _ _ _ _ (Hi k L) Gk) as (T & _).
      by apply T.
Qed.

Lemma lexGreater_irrefl (f : nat -> spec_float) : ~ lexGreater f f.
Proof.
  intros (i & _ & G).
  pose proof (SFcompare_antisym (f i) (f i)) as A.
  rewrite G in A. discriminate.
Qed.

Lemma lexGreater_asym (f g : nat -> spec_float) :
  lexGreater f g -> ~ lexGreater g f.
Proof.
  intros H1 H2. exact (lexGreater_irrefl f (lexGreater_trans _ _ _ H1 H2)).
Qed.

(** Whatever lies between: below the greater or above the smaller. *)
Lemma lexGreater_between (f g h : nat -> spec_float) :
  (forall i, f i <> S754_nan) -> (forall i, g i <> S754_nan) ->
  lexGreater f h -> lexGreater f g \/ lexGreater g h.
Proof.
  intros Nf Ng (n & Heq & Hgt).
  assert (forall m, m <= n ->
            (forall j, j < m -> sameNumber (f j) (g j))
            \/ lexGreater f g \/ lexGreater g h) as Scan.
  { induction m as [|m IH]; intros Hm.
    - left. intros j Hj. lia.
    - destruct (IH ltac:(lia)) as [Same|Done]; [|by right].
      destruct (SFcompare_total (f m) (g m) (Nf m) (Ng m)) as [[| |] C].
      + left. intros j Hj.
        destruct (decide (j = m)) as [->|]; [done|apply Same; lia].
      + right. right. exists m. split.
        * intros j Hj.
          destruct (SFcompare_trans _ _ _ _ _
                      (SFcompare_Eq_sym _ _ (Same j Hj)) (Heq j ltac:(lia)))
            as (T & _).
          by apply T.
        * apply SFcompare_Gt_Lt in C.
          destruct (SFcompare_trans _ _ _ _ _ C (Heq m ltac:(lia)))
            as (_ & T & _).
          by apply T.
      + right. left. exists m. by split. }
  destruct (Scan n ltac:(lia)) as [Same|Done]; [|done].
  destruct (SFcompare_total (f n) (g n) (Nf n) (Ng n)) as [[| |] C].
  - right. exists n. split.
    + intros j Hj.
      destruct (SFcompare_trans _ _ _ _ _
                  (SFcompare_Eq_sym _ _ (Same j Hj)) (Heq j Hj)) as (T & _).
      by apply T.
    + destruct (SFcompare_trans _ _ _ _ _ (SFcompare_Eq_sym _ _ C) Hgt)
        as (T & _).
      by apply T.
  - right. exists n. split.
    + intros j Hj.
      destruct (SFcompare_trans _ _ _ _ _
                  (SFcompare_Eq_sym _ _ (Same j Hj)) (Heq j Hj)) as (T & _).
      by apply T.
    + apply SFcompare_Gt_Lt in C.
      destruct (SFcompare_trans _ _ _ _ _ C Hgt) as (_ & _ & T).
      by apply T.
  - left. exists n. by split.
Qed.

(** ** The loop of the comparator *)

Lemma jsGt_spec (x y : spec_float) :
  jsGt x y = true <-> SFcompare x y = Some Gt.
Proof.
  unfold jsGt, SFltb. rewrite SFcompare_Gt_Lt.
  destruct (SFcompare y x) as [[]|]; split; congruence.
Qed.

Lemma jsLt_spec (x y : spec_float) :
  jsLt x y = true <-> SFcompare x y = Some Lt.
Proof.
  unfold jsLt, SFltb.
  destruct (SFcompare x y) as [[]|]; split; congruence.
Qed.

Lemma partOrZero_number (parts : list spec_float) (i : nat) :
  partOrZero parts i <> S754_nan.
Proof.
  unfold partOrZero. destruct (parts !! i) as [[]|]; simpl; done.
Qed.

Lemma partOrZero_past_end (parts : list spec_float) (i : nat) :
  length parts <= i -> partOrZero parts i = jsZero.
Proof.
  intros H. unfold partOrZero. by rewrite (proj2 (lookup_ge_None parts i) H).
Qed.

Lemma compareFrom_spec (p1 p2 : list spec_float) (steps i : nat) :
  compareFrom p1 p2 i steps = true <->
  exists n, n < steps
    /\ (forall j, j < n ->
          sameNumber (partOrZero p1 (i + j)) (partOrZero p2 (i + j)))
    /\ SFcompare (partOrZero p1 (i + n)) (partOrZero p2 (i + n)) = Some Gt.
Proof.
  revert i. induction steps as [|steps IH]; intros i; simpl.
  - split; [done|]. intros (n & Hn & _). lia.
  - destruct (SFcompare_total (partOrZero p1 i) (partOrZero p2 i)
                (partOrZero_number p1 i) (partOrZero_number p2 i)) as [c C].
    destruct (jsGt (partOrZero p1 i) (partOrZero p2 i)) eqn:G.
    { split; [intros _|done]. exists 0. split; [lia|]. split.
      - intros j Hj. lia.
      - rewrite Nat.add_0_r. by apply jsGt_spec. }
    destruct (jsLt (partOrZero p1 i) (partOrZero p2 i)) eqn:L.
    { split; [done|]. intros (n & Hn & Same & Gt).
      apply jsLt_spec in L. destruct n as [|n].
      - rewrite Nat.add_0_r in Gt. congruence.
      - specialize (Same 0 ltac:(lia)). rewrite Nat.add_0_r in Same.
        unfold sameNumber in Same. congruence. }
    assert (c = Eq) as ->.
    { destruct c; [done| |].
      - apply jsLt_spec in C. congruence.
      - apply jsGt_spec in C. congruence. }
    rewrite IH. split.
    + intros (n & Hn & Same & Gt). exists (S n). split; [lia|]. split.
      * intros [|j] Hj; [by rewrite Nat.add_0_r|].
        rewrite Nat.add_succ_r. apply Same. lia.
      * by rewrite Nat.add_succ_r.
    + intros (n & Hn & Same & Gt). destruct n as [|n].
      * rewrite Nat.add_0_r in Gt. congruence.
      * exists n. split; [lia|]. split.
        -- intros j Hj. specialize (Same (S j) ltac:(lia)).
           by rewrite Nat.add_succ_r in Same.
        -- by rewrite Nat.add_succ_r in Gt.
Qed.

Lemma isVersionHigher_lex (a b : string) :
  isVersionHigher a b = true <->
  lexGreater (partOrZero (versionParts a)) (partOrZero (versionParts b)).
Proof.
  unfold isVersionHigher. rewrite compareFrom_spec. split.
  - intros (n & _ & Same & Gt). exists n. by split.
  - intros (n & Same & Gt). exists n. split; [|by split].
    destruct (Nat.lt_ge_cases n
                (Nat.max (length (versionParts a)) (length (versionParts b))))
      as [|Past]; [done|].
    rewrite !partOrZero_past_end in Gt by lia. discriminate.
Qed.



(** The comparator is a strict order in which any third version lies below
    the higher or above the lower of two. *)
Lemma isVersionHigher_irrefl (a : string) : isVersionHigher a a = false.
Proof.
  destruct (isVersionHigher a a) eqn:H; [|done].
  apply isVersionHigher_lex in H. by apply lexGreater_irrefl in H.
Qed.

Lemma isVersionHigher_trans (a b c : string) :
  isVersionHigher a b = true -> isVersionHigher b c = true ->
  isVersionHigher a c = true.
Proof.
  rewrite !isVersionHigher_lex. apply lexGreater_trans.
Qed.

Lemma isVersionHigher_asym (a b : string) :
  isVersionHigher a b = true -> isVersionHigher b a = false.
Proof.
  intros H. destruct (isVersionHigher b a) eqn:H'; [|done].
  pose proof (isVersionHigher_trans _ _ _ H H') as T.
  by rewrite isVersionHigher_irrefl in T.
Qed.

Lemma isVersionHigher_between (a b c : string) :
  isVersionHigher a c = true ->
  isVersionHigher a b = true \/ isVersionHigher b c = true.
Proof.
  rewrite !isVersionHigher_lex.
  apply lexGreater_between; intros i; apply partOrZero_number.
Qed.


(** ** Version Normalizer *)

Lemma isOperatorChar_In (c : ascii) :
  isOperatorChar c = true <-> In c operatorChars.
Proof.
  unfold isOperatorChar. rewrite existsb_exists. split.
  - intros (d & Hd & E). apply Ascii.eqb_eq in E. by subst.
  - intros H. exists c. split; [done|apply Ascii.eqb_refl].
Qed.

(** C8. For every version string [x] the normalizer either removes exactly
    the first character, which is then one of [^ ~ > = <], and returns the
    remainder, or returns [x] itself, which then does not start with one of
    them; and normalizing twice is normalizing once for every [x] with at
    most one such leading character. *)
Theorem cleanVersion_strips_one_operator (x : string) :
  ((exists c, In c operatorChars /\ x = String c (cleanVersion x))
   \/ (cleanVersion x = x
       /\ forall c rest, x = String c rest -> ~ In c operatorChars))
  /\ (leadingOperators x <= 1 ->
      cleanVersion (cleanVersion x) = cleanVersion x).
Proof.
  split.
  - destruct x as [|c rest]; simpl.
    + right. split; [done|]. intros c rest H. discriminate.
    + destruct (isOperatorChar c) eqn:Op.
      * left. exists c. split; [by apply isOperatorChar_In|done].
      * right. split; [done|]. intros c' rest' [= <- <-] H.
        apply isOperatorChar_In in H. congruence.
  - destruct x as [|c rest]; simpl; [done|].
    destruct (isOperatorChar c) eqn:Op; simpl.
    + destruct rest as [|c' rest']; simpl; [done|].
      destruct (isOperatorChar c'); [lia|done].
    + by rewrite Op.
Qed.

(** ** Dependency Merger *)

Lemma lookup_mergeVersion_ne (m : gmap string string) (name n v : string) :
  n <> name -> mergeVersion m n v !! name = m !! name.
Proof.
  intros Hne. unfold mergeVersion.
  destruct (m !! n) as [existing|]; [destruct (isVersionHigher v existing)|];
    by rewrite ?lookup_insert_ne.
Qed.

Lemma lookup_mergeVersion_eq (m : gmap string string) (n v : string) :
  mergeVersion m n v !! n =
  match m !! n with
  | Some existing => if isVersionHigher v existing then Some v else Some existing
  | None => Some v
  end.
Proof.
  unfold mergeVersion.
  destruct (m !! n) as [existing|] eqn:E;
    [destruct (isVersionHigher v existing)|]; by rewrite ?lookup_insert_eq.
Qed.

Lemma versionsOf_cons_eq (n v : string) (l : list (string * string)) :
  versionsOf n ((n, v) :: l) = v :: versionsOf n l.
Proof. unfold versionsOf. by rewrite filter_cons_True. Qed.

Lemma versionsOf_cons_ne (name n v : string) (l : list (string * string)) :
  n <> name -> versionsOf name ((n, v) :: l) = versionsOf name l.
Proof. intros H. unfold versionsOf. by rewrite filter_cons_False. Qed.

Lemma versionsOf_app (name : string) (l k : list (string * string)) :
  versionsOf name (l ++ k) = versionsOf name l ++ versionsOf name k.
Proof. unfold versionsOf. by rewrite filter_app, map_app. Qed.

Lemma In_versionsOf (name v : string) (l : list (string * string)) :
  In v (versionsOf name l) <-> In (name, v) l.
Proof.
  unfold versionsOf. rewrite in_map_iff. split.
  - intros ([n w] & <- & H). apply list_elem_of_In, list_elem_of_filter in H.
    destruct H as [E H]. simpl in E. subst n. by apply list_elem_of_In.
  - intros H. exists (name, v). split; [done|].
    apply list_elem_of_In, list_elem_of_filter.
    split; [done|by apply list_elem_of_In].
Qed.

Lemma firstHighest_single (s : string) : firstHighest [s] s.
Proof. exists [], []. repeat split; intros v []. Qed.

Lemma firstHighest_In (versions : list string) (s : string) :
  firstHighest versions s -> In s versions.
Proof. intros (before & after & -> & _). apply in_elt. Qed.

(** Nothing in the list is ranked higher than the first highest. *)
Lemma firstHighest_highest (versions : list string) (s v : string) :
  firstHighest versions s -> In v versions -> isVersionHigher v s = false.
Proof.
  intros (before & after & -> & Hb & Ha) Hv.
  apply in_app_or in Hv. destruct Hv as [Hv|[<-|Hv]].
  - by apply isVersionHigher_asym, Hb.
  - apply isVersionHigher_irrefl.
  - by apply Ha.
Qed.

Lemma firstHighest_replaced (s0 v s : string) (vs : list string) :
  isVersionHigher v s0 = true ->
  firstHighest (v :: vs) s -> firstHighest (s0 :: v :: vs) s.
Proof.
  intros Hv (before & after & E & Hb & Ha).
  exists (s0 :: before), after. split; [by rewrite E|]. split; [|done].
  intros w [<-|Hw]; [|by apply Hb].
  destruct before as [|b before].
  - injection E as -> _. done.
  - injection E as -> _.
    apply (isVersionHigher_trans _ b); [apply Hb; by left|done].
Qed.

Lemma firstHighest_kept (s0 v s : string) (vs : list string) :
  isVersionHigher v s0 = false ->
  firstHighest (s0 :: vs) s -> firstHighest (s0 :: v :: vs) s.
Proof.
  intros Hv (before & after & E & Hb & Ha).
  destruct before as [|b before].
  - injection E as -> ->. exists [], (v :: after).
    split; [done|]. split; [intros w []|].
    intros w [<-|Hw]; [done|by apply Ha].
  - injection E as -> ->. exists (b :: v :: before), after.
    split; [done|]. split; [|done].
    intros w [<-|[<-|Hw]].
    + apply Hb. by left.
    + destruct (isVersionHigher_between s v b (Hb b ltac:(by left)));
        [done|congruence].
    + apply Hb. by right.
Qed.

(** What the fold leaves under a name: the first highest of the version it
    started with, if any, followed by the versions merged for that name. *)
Lemma mergeAll_lookup (l : list (string * string)) :
  forall (m : gmap string string) (name : string),
    match mergeAll l m !! name with
    | Some s => firstHighest (option_list (m !! name) ++ versionsOf name l) s
    | None => m !! name = None /\ versionsOf name l = []
    end.
Proof.
  induction l as [|[n v] l IH]; intros m name.
  - simpl. destruct (m !! name) as [s|]; [apply firstHighest_single|done].
  - change (mergeAll ((n, v) :: l) m) with (mergeAll l (mergeVersion m n v)).
    specialize (IH (mergeVersion m n v) name).
    destruct (decide (n = name)) as [->|Hne].
    + rewrite versionsOf_cons_eq. rewrite lookup_mergeVersion_eq in IH.
      destruct (m !! name) as [s0|]; simpl in *.
      * destruct (isVersionHigher v s0) eqn:Hv; simpl in IH;
          destruct (mergeAll l (mergeVersion m name v) !! name) as [s|];
          try (by destruct IH).
        -- by apply firstHighest_replaced.
        -- by apply firstHighest_kept.
      * destruct (mergeAll l (mergeVersion m name v) !! name) as [s|];
          [done|by destruct IH].
    + rewrite versionsOf_cons_ne by done.
      by rewrite lookup_mergeVersion_ne in IH.
Qed.

Lemma mergeAll_app (l k : list (string * string)) (m : gmap string string) :
  mergeAll (l ++ k) m = mergeAll k (mergeAll l m).
Proof. apply foldl_app. Qed.

(** ** From the loops to the fold *)

Lemma mergeEntries_spec (entries : list (string * json)) :
  forall m : gmap string string,
    fst (mergeEntries entries m) = mergeAll (stringPrefix entries) m
    /\ (snd (mergeEntries entries m) = None <-> allStrings entries = true).
Proof.
  induction entries as [|[name version] entries IH]; intros m; simpl.
  - done.
  - destruct version; simpl; try (split; [done|split; discriminate]).
    apply IH.
Qed.

Lemma In_stringPrefix (entries : list (string * json)) (name raw : string) :
  allStrings entries = true -> In (name, JString raw) entries ->
  In (name, cleanVersion raw) (stringPrefix entries).
Proof.
  induction entries as [|[n version] entries IH]; simpl; [done|].
  destruct version; simpl; try discriminate.
  intros All [[= -> ->]|H]; [by left|right; by apply IH].
Qed.

Lemma mergeGroup_spec (g : group) (packageJson : json)
    (m : gmap string string) :
  fst (mergeGroup packageJson (groupKey g) m)
  = mergeAll (stringPrefix (declared g packageJson)) m
  /\ (snd (mergeGroup packageJson (groupKey g) m) = None <->
      packageJson <> JNull /\ allStrings (declared g packageJson) = true).
Proof.
  unfold mergeGroup, declared, processDependencyGroup.
  destruct (getProperty packageJson (groupKey g)) as [message|[deps|]] eqn:E.
  - destruct packageJson; try discriminate. simpl.
    split; [done|]. split; [discriminate|]. by intros [? _].
  - assert (packageJson <> JNull) by (destruct packageJson; done).
    destruct (isTruthy (Some deps)).
    + destruct (mergeEntries_spec (objectEntries deps) m) as [-> ->].
      split; [done|]. tauto.
    + simpl. split; [done|]. tauto.
  - assert (packageJson <> JNull) by (destruct packageJson; done).
    simpl. split; [done|]. tauto.
Qed.

Lemma mergeManifest_spec (packageJson : json)
    (d dv : gmap string string) :
  fst (mergeManifest packageJson d dv)
  = (mergeAll (seenIn Runtime (Parses packageJson)) d,
     mergeAll (seenIn Development (Parses packageJson)) dv)
  /\ (snd (mergeManifest packageJson d dv) = None <->
      processedSuccessfully (Parses packageJson) = true).
Proof.
  unfold mergeManifest.
  destruct (mergeGroup_spec Runtime packageJson d) as [R1 R2].
  destruct (mergeGroup_spec Development packageJson dv) as [D1 D2].
  simpl groupKey in *. simpl seenIn.
  destruct (mergeGroup packageJson "dependencies" d) as [d' [message|]];
    simpl in R1, R2; subst d'.
  - simpl. destruct (allStrings (declared Runtime packageJson)) eqn:A.
    + assert (packageJson = JNull) as ->.
      { destruct packageJson; try done; exfalso;
          by assert (Some message = None) by (by apply R2). }
      done.
    + split; [done|]. split; [discriminate|].
      destruct packageJson; simpl; try discriminate; rewrite ?A; done.
  - destruct (proj1 R2 eq_refl) as [NotNull A]. rewrite A.
    destruct (mergeGroup packageJson "devDependencies" dv) as [dv' thrown];
      simpl in D1, D2; subst dv'. simpl.
    split; [done|]. rewrite D2.
    destruct packageJson; try done; simpl; rewrite A; simpl; tauto.
Qed.

(** What one project does to the two maps, and whether it warns. *)
Lemma processProject_spec (manifestAt : path -> manifestFile)
    (projectPath : path) (d dv : gmap string string) :
  let packageJsonPath := pathJoin projectPath "package.json" in
  let file := manifestAt packageJsonPath in
  exists events,
    processProject manifestAt projectPath d dv
    = (mergeAll (seenIn Runtime file) d, mergeAll (seenIn Development file) dv,
       ReadFile packageJsonPath :: events)
    /\ (if processedSuccessfully file then events = []
        else exists message,
            events = [Console (CouldNotProcess packageJsonPath message)]).
Proof.
  intros packageJsonPath file. unfold processProject.
  fold packageJsonPath. fold file.
  destruct file as [message|message|packageJson] eqn:F.
  - exists [Console (CouldNotProcess packageJsonPath message)].
    split; [done|]. by exists message.
  - exists [Console (CouldNotProcess packageJsonPath message)].
    split; [done|]. by exists message.
  - destruct (mergeManifest_spec packageJson d dv) as [M1 M2].
    destruct (mergeManifest packageJson d dv) as [[d' dv'] [message|]];
      cbn [fst snd] in M1, M2; injection M1 as -> ->.
    + exists [Console (CouldNotProcess packageJsonPath message)].
      split; [done|].
      destruct (processedSuccessfully (Parses packageJson));
        [by assert (Some message = None) by (by apply M2)|by exists message].
    + exists []. split; [done|]. by rewrite (proj1 M2 eq_refl).
Qed.

Lemma processProjects_maps (manifestAt : path -> manifestFile)
    (projects : list path) :
  forall d dv : gmap string string,
    fst (processProjects manifestAt projects d dv)
    = (mergeAll (seen Runtime manifestAt projects) d,
       mergeAll (seen Development manifestAt projects) dv).
Proof.
  induction projects as [|projectPath rest IH]; intros d dv; simpl; [done|].
  destruct (processProject_spec manifestAt projectPath d dv)
    as (events & -> & _).
  specialize (IH (mergeAll
                    (seenIn Runtime (manifestAt (pathJoin projectPath "package.json"))) d)
                 (mergeAll
                    (seenIn Development (manifestAt (pathJoin projectPath "package.json"))) dv)).
  destruct (processProjects manifestAt rest _ _) as [[d' dv'] later].
  simpl in *. injection IH as -> ->.
  by rewrite !mergeAll_app.
Qed.

Lemma seenIn_declared (g : group) (packageJson : json) (name raw : string) :
  processedSuccessfully (Parses packageJson) = true ->
  In (name, JString raw) (declared g packageJson) ->
  In (name, cleanVersion raw) (seenIn g (Parses packageJson)).
Proof.
  intros Ok H.
  assert (allStrings (declared Runtime packageJson) = true
          /\ allStrings (declared Development packageJson) = true) as [R D].
  { unfold processedSuccessfully in Ok.
    destruct packageJson; cbv beta iota in Ok; try discriminate;
      by apply andb_true_iff in Ok. }
  destruct g; simpl.
  - by apply In_stringPrefix.
  - rewrite R. by apply In_stringPrefix.
Qed.


(** ** Merging in any order *)

Lemma stringPrefix_asObject (entries : list (string * string)) :
  stringPrefix (objectEntries (asObject entries)) = cleanedEntries entries.
Proof.
  simpl. induction entries as [|[name raw] entries IH]; simpl; [done|].
  by rewrite IH.
Qed.

Lemma mergeGroups_mergeAll (groups : list (list (string * string))) :
  forall m : gmap string string,
    mergeGroups groups m = mergeAll (cleanedEntries (concat groups)) m.
Proof.
  induction groups as [|entries groups IH]; intros m; [done|].
  change (mergeGroups (entries :: groups) m)
    with (mergeGroups groups (fst (processDependencyGroup (asObject entries) m))).
  rewrite IH. unfold processDependencyGroup.
  destruct (mergeEntries_spec (objectEntries (asObject entries)) m) as [-> _].
  rewrite stringPrefix_asObject. simpl concat. unfold cleanedEntries.
  by rewrite map_app, mergeAll_app.
Qed.

Lemma In_versionsOf_cleaned (name v : string) (l : list (string * string)) :
  In v (versionsOf name (cleanedEntries l)) <->
  exists raw, In (name, raw) l /\ v = cleanVersion raw.
Proof.
  rewrite In_versionsOf. unfold cleanedEntries. rewrite in_map_iff. split.
  - intros ([n raw] & [= <- <-] & H). by exists raw.
  - intros (raw & H & ->). by exists (name, raw).
Qed.

(** C4. Take the same entries (name, raw version) in two orders, each cut
    into groups in any way, and merge each sequence of groups into an empty
    mapping, one call of the merger per group. If the comparator ranks any
    two distinct cleaned versions of the entries one above the other, both
    final mappings are equal. *)
Theorem merge_order_independent (groups1 groups2 : list (list (string * string))) :
  Permutation (concat groups1) (concat groups2) ->
  totallyOrders (concat groups1) ->
  mergeGroups groups1 ∅ = mergeGroups groups2 ∅.
Proof.
  intros Perm Total. rewrite !mergeGroups_mergeAll.
  set (l1 := concat groups1) in *. set (l2 := concat groups2) in *.
  assert (forall name v, In v (versionsOf name (cleanedEntries l1)) <->
                         In v (versionsOf name (cleanedEntries l2))) as Same.
  { intros name v. rewrite !In_versionsOf_cleaned.
    split; intros (raw & H & ->); exists raw; (split; [|done]).
    - by apply (Permutation_in _ Perm).
    - by apply (Permutation_in _ (Permutation_sym Perm)). }
  apply map_eq. intros name.
  pose proof (mergeAll_lookup (cleanedEntries l1) ∅ name) as L1.
  pose proof (mergeAll_lookup (cleanedEntries l2) ∅ name) as L2.
  rewrite lookup_empty in L1, L2. simpl in L1, L2.
  destruct (mergeAll (cleanedEntries l1) ∅ !! name) as [s1|],
    (mergeAll (cleanedEntries l2) ∅ !! name) as [s2|].
  - pose proof (firstHighest_In _ _ L1) as I1.
    pose proof (firstHighest_In _ _ L2) as I2.
    pose proof (firstHighest_highest _ _ _ L1 (proj2 (Same name s2) I2)) as H21.
    pose proof (firstHighest_highest _ _ _ L2 (proj1 (Same name s1) I1)) as H12.
    destruct (decide (s1 = s2)) as [->|Hne]; [done|].
    apply In_versionsOf_cleaned in I1. destruct I1 as (raw1 & I1 & ->).
    apply (Same name), In_versionsOf_cleaned in I2.
    destruct I2 as (raw2 & I2 & ->).
    destruct (Total (name, raw1) (name, raw2) I1 I2 Hne); simpl in *; congruence.
  - destruct L2 as [_ E]. apply firstHighest_In, Same in L1.
    rewrite E in L1. destruct L1.
  - destruct L1 as [_ E]. apply firstHighest_In, Same in L2.
    rewrite E in L2. destruct L2.
  - done.
Qed.

(** ** Project Finder *)

Lemma fsnode_nested_ind (P : fsnode -> Prop) :
  P File ->
  (forall message, P (StatError message)) ->
  (forall manifest message, P (DirUnreadable manifest message)) ->
  (forall manifest items,
      Forall (fun entry => P (snd entry)) items -> P (Dir manifest items)) ->
  forall node, P node.
Proof.
  intros HFile HStat HUnreadable HDir.
  fix IH 1. intros [|message|manifest message|manifest items].
  - apply HFile.
  - apply HStat.
  - apply HUnreadable.
  - apply HDir.
    exact ((fix each (l : list (string * fsnode))
              : Forall (fun entry => P (snd entry)) l :=
              match l with
              | [] => List.Forall_nil _
              | entry :: l' =>
                  List.Forall_cons _ entry l' (IH (snd entry)) (each l')
              end) items).
Qed.

(** One turn of the loop, by what the item is. *)
Lemma scanItems_cons (F : path -> fsnode -> list path * list event)
    (dir : path) (name : string) (child : fsnode)
    (rest : list (string * fsnode)) :
  let fullPath := pathJoin dir name in
  let packageJsonPath := pathJoin fullPath "package.json" in
  let later := scanItems F dir rest in
  (exists message,
      child = StatError message
      /\ scanItems F dir ((name, child) :: rest)
         = ([], [Stat fullPath (Some message);
                 Console (CouldNotReadDirectory dir message)]))
  \/ (child = File
      /\ scanItems F dir ((name, child) :: rest)
         = (fst later, Stat fullPath None :: snd later))
  \/ (isDirectory child = true /\ hasManifest child = true
      /\ scanItems F dir ((name, child) :: rest)
         = (fullPath :: fst later,
            Stat fullPath None :: Exists packageJsonPath true :: snd later))
  \/ (isDirectory child = true /\ hasManifest child = false
      /\ scanItems F dir ((name, child) :: rest)
         = (fst (F fullPath child) ++ fst later,
            Stat fullPath None :: Exists packageJsonPath false
              :: snd (F fullPath child) ++ snd later)).
Proof.
  intros fullPath packageJsonPath later. subst later. simpl.
  fold fullPath. fold packageJsonPath.
  destruct (scanItems F dir rest) as [projects events].
  destruct child as [|message|[|] message|[|] items]; simpl.
  - right. left. done.
  - left. by exists message.
  - right. right. left. done.
  - right. right. right. by destruct (F fullPath _).
  - right. right. left. done.
  - right. right. right. by destruct (F fullPath _).
Qed.

Lemma findProjects_Dir (dir : path) (manifest : bool)
    (items : list (string * fsnode)) :
  findProjects dir (Dir manifest items)
  = (fst (scanItems findProjects dir items),
     ReadDir dir None :: snd (scanItems findProjects dir items)).
Proof. simpl. by destruct (scanItems findProjects dir items). Qed.

(** *** Paths *)

Lemma pathJoin_inj (a b : path) (x y : string) :
  pathJoin a x = pathJoin b y -> a = b /\ x = y.
Proof. apply app_inj_tail. Qed.

Lemma under_join (dir : path) (name : string) (q : path) :
  pathJoin dir name `prefix_of` q -> under dir name q.
Proof.
  intros [k ->]. exists k. unfold pathJoin. by rewrite <- app_assoc.
Qed.

Lemma under_prefix (dir : path) (name : string) (q : path) :
  under dir name q -> dir `prefix_of` q.
Proof. intros [rest ->]. by exists (name :: rest). Qed.

Lemma under_strictlyBelow (dir : path) (name : string) (q : path) :
  under dir name q -> strictlyBelow dir q.
Proof. intros [rest ->]. by exists name, rest. Qed.

Lemma under_disjoint (dir : path) (n1 n2 : string) (d q : path) :
  n1 <> n2 -> under dir n1 d -> under dir n2 q -> ~ d `prefix_of` q.
Proof.
  intros Hne [r1 ->] [r2 ->] [k E].
  rewrite <- app_assoc in E. apply app_inv_head in E.
  simpl in E. congruence.
Qed.

Lemma strictlyBelow_not_prefix (root d : path) :
  strictlyBelow root d -> ~ d `prefix_of` root.
Proof.
  intros (item & rest & ->) [k E].
  apply (f_equal length) in E. rewrite !length_app in E. simpl in E. lia.
Qed.

Lemma strictlyBelow_not_self (root : path) : ~ strictlyBelow root root.
Proof.
  intros H. by apply (strictlyBelow_not_prefix root root H).
Qed.

(** *** What a walk touches lies below where it starts *)

Lemma touches_stopped (s : path) (message : string) (line : consoleLine)
    (q : path) :
  ~ touches ([], [Stat s (Some message); Console line]) q.
Proof.
  unfold touches, foundManifestIn. simpl.
  intros [[]|[[f [H|[H|[]]]]|[H|[H|[]]]]]; discriminate.
Qed.

Lemma touches_skip (ps : list path) (ev : list event) (s : path) (q : path) :
  touches (ps, Stat s None :: ev) q <-> touches (ps, ev) q.
Proof.
  unfold touches, foundManifestIn. simpl. split.
  - intros [H|[[f [H|H]]|[H|H]]]; try discriminate; eauto.
  - intros [H|[[f H]|H]]; eauto.
Qed.

Lemma touches_project (ps : list path) (ev : list event) (fullPath q : path) :
  touches (fullPath :: ps,
           Stat fullPath None
             :: Exists (pathJoin fullPath "package.json") true :: ev) q
  <-> q = fullPath \/ touches (ps, ev) q.
Proof.
  unfold touches, foundManifestIn. simpl. split.
  - intros [[H|H]|[[f [H|[H|H]]]|[H|[H|H]]]]; try discriminate; eauto.
    injection H as H. apply pathJoin_inj in H. left. by destruct H.
  - intros [->|[H|[[f H]|H]]]; eauto 6.
Qed.

Lemma touches_inner (ps1 ps2 : list path) (ev1 ev2 : list event)
    (s pj : path) (q : path) :
  touches (ps1 ++ ps2, Stat s None :: Exists pj false :: ev1 ++ ev2) q
  <-> touches (ps1, ev1) q \/ touches (ps2, ev2) q.
Proof.
  unfold touches, foundManifestIn. simpl. split.
  - intros [H|[[f [H|[H|H]]]|[H|[H|H]]]]; try discriminate;
      apply in_app_or in H; destruct H; eauto 6.
  - intros [[H|[[f H]|H]]|[H|[[f H]|H]]];
      eauto 8 using in_or_app.
Qed.

Lemma scanItems_touches (F : path -> fsnode -> list path * list event)
    (dir : path) (items : list (string * fsnode)) :
  Forall (fun entry =>
            forall dir' q, touches (F dir' (snd entry)) q -> dir' `prefix_of` q)
    items ->
  forall q, touches (scanItems F dir items) q ->
    exists name, In name (map fst items) /\ under dir name q.
Proof.
  induction items as [|[name child] rest IH]; intros Below q Hq.
  - destruct Hq as [[]|[[f []]|[]]].
  - apply List.Forall_cons_iff in Below. destruct Below as [Child Rest].
    assert (touches (scanItems F dir rest) q ->
            exists name', In name' (map fst ((name, child) :: rest))
                          /\ under dir name' q) as Later.
    { intros H. destruct (IH Rest q H) as (name' & ? & ?).
      exists name'. split; [by right|done]. }
    destruct (scanItems_cons F dir name child rest)
      as [(message & _ & E)|[(_ & E)|[(_ & _ & E)|(_ & _ & E)]]];
      rewrite E in Hq; clear E.
    + by apply touches_stopped in Hq.
    + apply touches_skip in Hq. apply Later.
      by destruct (scanItems F dir rest).
    + apply touches_project in Hq. destruct Hq as [->|Hq].
      * exists name. split; [by left|]. by exists [].
      * apply Later. exact Hq.
    + apply touches_inner in Hq. destruct Hq as [Hq|Hq].
      * exists name. split; [by left|].
        apply under_join, (Child (pathJoin dir name)). exact Hq.
      * apply Later. exact Hq.
Qed.

Lemma findProjects_prefix (node : fsnode) :
  forall dir q, touches (findProjects dir node) q -> dir `prefix_of` q.
Proof.
  induction node as [|message|manifest message|manifest items IH]
    using fsnode_nested_ind; intros dir q Hq.
  - destruct Hq as [[]|[[f [H|[H|[]]]]|[H|[H|[]]]]]; try discriminate.
    injection H as <- _. done.
  - destruct Hq as [[]|[[f [H|[H|[]]]]|[H|[H|[]]]]]; try discriminate.
    injection H as <- _. done.
  - destruct Hq as [[]|[[f [H|[H|[]]]]|[H|[H|[]]]]]; try discriminate.
    injection H as <- _. done.
  - rewrite findProjects_Dir in Hq.
    assert (touches (scanItems findProjects dir items) q -> dir `prefix_of` q)
      as Scan.
    { intros H. destruct (scanItems_touches _ dir items IH q H) as (name & _ & U).
      by apply under_prefix in U. }
    destruct Hq as [H|[[f [H|H]]|[H|H]]]; try discriminate.
    + apply Scan. by left.
    + injection H as <- _. done.
    + apply Scan. right. left. by exists f.
    + apply Scan. right. right. done.
Qed.

Lemma scanItems_under (dir : path) (items : list (string * fsnode)) (q : path) :
  touches (scanItems findProjects dir items) q ->
  exists name, In name (map fst items) /\ under dir name q.
Proof.
  apply scanItems_touches. apply List.Forall_forall.
  intros entry _ dir' q'. apply findProjects_prefix.
Qed.

(** Every project returned lies strictly below the directory walked. *)
Lemma findProjects_strictlyBelow (node : fsnode) (dir q : path) :
  In q (fst (findProjects dir node)) -> strictlyBelow dir q.
Proof.
  destruct node as [|message|manifest message|manifest items]; try done.
  rewrite findProjects_Dir. simpl. intros H.
  destruct (scanItems_under dir items q) as (name & _ & U); [by left|].
  by apply under_strictlyBelow in U.
Qed.

(** *** A directory with a manifest is a leaf of the walk *)

(** A leaf stays a leaf when the walk is put next to others that touch
    nothing at or below it. *)
Lemma treatedAsLeaf_extend (ps ps' : list path) (ev ev' : list event)
    (d : path) :
  treatedAsLeaf ps ev d ->
  (forall q, In q ps -> In q ps') ->
  (forall q, In q ps' -> In q ps \/ ~ d `prefix_of` q) ->
  (forall q f, In (ReadDir q f) ev' ->
               In (ReadDir q f) ev \/ ~ d `prefix_of` q) ->
  treatedAsLeaf ps' ev' d.
Proof.
  intros (Rec & Closed & Alone) Keep Projects Listed.
  split; [by apply Keep|]. split.
  - intros q f H. destruct (Listed q f H) as [H'|H']; [by apply (Closed q f)|done].
  - intros q H P. destruct (Projects q H) as [H'|H']; [by apply Alone|done].
Qed.

Lemma scanItems_leaf (dir : path) (items : list (string * fsnode)) :
  NoDup (map fst items) ->
  Forall (fun entry =>
            forall dir' d,
              foundManifestIn (snd (findProjects dir' (snd entry))) d ->
              treatedAsLeaf (fst (findProjects dir' (snd entry)))
                (snd (findProjects dir' (snd entry))) d)
    items ->
  forall d,
    foundManifestIn (snd (scanItems findProjects dir items)) d ->
    treatedAsLeaf (fst (scanItems findProjects dir items))
      (snd (scanItems findProjects dir items)) d.
Proof.
  induction items as [|[name child] rest IH]; intros Names Leaves d Found.
  - destruct Found.
  - apply NoDup_cons in Names. destruct Names as [Fresh Names].
    apply List.Forall_cons_iff in Leaves. destruct Leaves as [Child Leaves].
    specialize (IH Names Leaves d).
    set (later := scanItems findProjects dir rest) in *.
    set (fullPath := pathJoin dir name) in *.
    assert (forall q, touches later q ->
                      exists name', name' <> name /\ under dir name' q) as Apart.
    { intros q H. destruct (scanItems_under dir rest q H) as (name' & I & U).
      exists name'. split; [|done]. intros ->.
      apply Fresh. by apply list_elem_of_In. }
    assert (forall q, under dir name d -> touches later q -> ~ d `prefix_of` q)
      as Mine.
    { intros q U H. destruct (Apart q H) as (name' & Hne & U').
      by apply (under_disjoint dir name name'). }
    assert (forall q, touches later d -> under dir name q -> ~ d `prefix_of` q)
      as Theirs.
    { intros q H U. destruct (Apart d H) as (name' & Hne & U').
      by apply (under_disjoint dir name' name). }
    assert (under dir name fullPath) as Here by (by exists []).
    destruct (scanItems_cons findProjects dir name child rest)
      as [(message & _ & E)|[(_ & E)|[(_ & _ & E)|(_ & _ & E)]]];
      fold later in E; fold fullPath in E; rewrite E in Found |- *;
      clear E; simpl fst; simpl snd; simpl in Found.
    + destruct Found as [H|[H|[]]]; discriminate.
    + destruct Found as [H|Found]; [discriminate|].
      apply (treatedAsLeaf_extend _ _ _ _ _ (IH Found)); [done|by left|].
      intros q f [H|H]; [discriminate|by left].
    + destruct Found as [H|[H|Found]]; [discriminate| |].
      * injection H as H. apply pathJoin_inj in H. destruct H as [<- _].
        split; [by left|]. split.
        -- intros q f [H|[H|H]]; try discriminate.
           apply (Mine q Here). right. left. by exists f.
        -- intros q [<-|H] P; [done|].
           destruct (Mine q Here); [by left|done].
      * assert (touches later d) as T by (right; right; exact Found).
        apply (treatedAsLeaf_extend _ _ _ _ _ (IH Found)).
        -- intros q H. by right.
        -- intros q [<-|H]; [right; by apply Theirs|by left].
        -- intros q f [H|[H|H]]; try discriminate. by left.
    + set (inner := findProjects fullPath child) in *.
      assert (forall q, touches inner q -> under dir name q) as Inside.
      { intros q H. by apply under_join, (findProjects_prefix child). }
      destruct Found as [H|[H|Found]]; try discriminate.
      apply in_app_or in Found. destruct Found as [Found|Found].
      * assert (under dir name d) as U
            by (apply Inside; right; right; exact Found).
        apply (treatedAsLeaf_extend _ _ _ _ _ (Child fullPath d Found)).
        -- intros q H. apply in_or_app. by left.
        -- intros q H. apply in_app_or in H. destruct H as [H|H]; [by left|].
           right. apply (Mine q U). by left.
        -- intros q f [H|[H|H]]; try discriminate.
           apply in_app_or in H. destruct H as [H|H]; [by left|].
           right. apply (Mine q U). right. left. by exists f.
      * assert (touches later d) as T by (right; right; exact Found).
        apply (treatedAsLeaf_extend _ _ _ _ _ (IH Found)).
        -- intros q H. apply in_or_app. by right.
        -- intros q H. apply in_app_or in H. destruct H as [H|H]; [|by left].
           right. apply (Theirs q T), Inside. by left.
        -- intros q f [H|[H|H]]; try discriminate.
           apply in_app_or in H. destruct H as [H|H]; [|by left].
           right. apply (Theirs q T), Inside. right. left. by exists f.
Qed.

Lemma findProjects_leaf (node : fsnode) :
  uniqueNames node = true ->
  forall dir d,
    foundManifestIn (snd (findProjects dir node)) d ->
    treatedAsLeaf (fst (findProjects dir node)) (snd (findProjects dir node)) d.
Proof.
  induction node as [|message|manifest message|manifest items IH]
    using fsnode_nested_ind; intros Unique dir d Found;
    try (destruct Found as [H|[H|[]]]; discriminate).
  rewrite findProjects_Dir in Found |- *. simpl fst. simpl snd.
  destruct Found as [H|Found]; [discriminate|].
  simpl in Unique. apply andb_true_iff in Unique.
  destruct Unique as [Names Children].
  apply bool_decide_eq_true in Names.
  assert (treatedAsLeaf (fst (scanItems findProjects dir items))
            (snd (scanItems findProjects dir items)) d) as Leaf.
  { apply scanItems_leaf; [done| |done].
    apply List.Forall_forall. intros entry Hentry.
    rewrite List.Forall_forall in IH. apply (IH entry Hentry).
    rewrite forallb_forall in Children. by apply Children. }
  apply (treatedAsLeaf_extend _ _ _ _ _ Leaf); [done|by left|].
  intros q f [H|H]; [|by left]. injection H as <- _. right.
  destruct (scanItems_under dir items d) as (name & _ & U);
    [right; right; exact Found|].
  by apply strictlyBelow_not_prefix, (under_strictlyBelow dir name).
Qed.

(** C3 (as amended). In a tree where no directory lists a name twice, every
    directory other than the one the walk is started on that the walk finds
    a manifest in is recorded as a project, neither it nor anything below
    it is listed, and nothing below it is in the result. *)
Theorem manifest_directory_is_leaf (root : path) (tree : fsnode) (d : path) :
  uniqueNames tree = true ->
  foundManifestIn (snd (findProjects root tree)) d ->
  strictlyBelow root d
  /\ treatedAsLeaf (fst (findProjects root tree))
       (snd (findProjects root tree)) d.
Proof.
  intros Unique Found. split; [|by apply findProjects_leaf].
  destruct (findProjects_leaf tree Unique root d Found) as (Rec & _).
  by apply (findProjects_strictlyBelow tree).
Qed.

(** *** The directory the walk starts on *)

Lemma scanItems_examines (F : path -> fsnode -> list path * list event)
    (dir : path) (before : list (string * fsnode))
    (name : string) (child : fsnode) (after : list (string * fsnode)) :
  allStatted before ->
  In (Stat (pathJoin dir name) (statFailure child))
    (snd (scanItems F dir (before ++ (name, child) :: after)))
  /\ (isDirectory child = true ->
      In (Exists (pathJoin (pathJoin dir name) "package.json")
            (hasManifest child))
        (snd (scanItems F dir (before ++ (name, child) :: after))))
  /\ (hasManifest child = true ->
      In (pathJoin dir name)
        (fst (scanItems F dir (before ++ (name, child) :: after)))).
Proof.
  induction before as [|[name' child'] before IH]; intros Statted.
  - change ([] ++ (name, child) :: after) with ((name, child) :: after).
    destruct (scanItems_cons F dir name child after)
      as [(message & -> & E)|[(-> & E)|[(D & M & E)|(D & M & E)]]];
      rewrite E; simpl fst; simpl snd.
    + split; [by left|]. split; discriminate.
    + split; [by left|]. split; discriminate.
    + rewrite M. destruct child; try discriminate;
        (split; [by left|]; split; [right; by left|by left]).
    + rewrite M. destruct child; try discriminate;
        (split; [by left|]; split; [right; by left|discriminate]).
  - assert (allStatted before) as Statted'.
    { intros item message H. apply (Statted item message). by right. }
    destruct (IH Statted') as (S & E & P).
    change (((name', child') :: before) ++ (name, child) :: after)
      with ((name', child') :: (before ++ (name, child) :: after)).
    destruct (scanItems_cons F dir name' child' (before ++ (name, child) :: after))
      as [(message & -> & _)|[(_ & E')|[(_ & _ & E')|(_ & _ & E')]]];
      try rewrite E'; simpl fst; simpl snd.
    + exfalso. apply (Statted name' message). by left.
    + split; [by right|]. split; [intros D; right; by apply E|done].
    + split; [by right; right|].
      split; [intros D; right; right; by apply E|intros M; right; by apply P].
    + split; [right; right; apply in_or_app; by right|].
      split; [intros D; right; right; apply in_or_app; right; by apply E|].
      intros M. apply in_or_app. right. by apply P.
Qed.

(** C10. Started on a directory it can list, the walk gives the same result
    whether or not that directory itself holds a manifest: the directory is
    listed and it is not in the result; each of its items up to the first
    whose [statSync] fails is looked at, each subdirectory among them is
    tested for a manifest, and each of these with one is recorded. Whatever
    the walk is started on, every project it returns lies strictly below
    it. *)
Theorem root_is_never_a_project (root : path) (manifest : bool)
    (items : list (string * fsnode)) :
  let result := findProjects root (Dir manifest items) in
  result = findProjects root (Dir false items)
  /\ In (ReadDir root None) (snd result)
  /\ ~ In root (fst result)
  /\ (forall tree q, In q (fst (findProjects root tree)) -> strictlyBelow root q)
  /\ (forall before name child after,
        items = before ++ (name, child) :: after -> allStatted before ->
        In (Stat (pathJoin root name) (statFailure child)) (snd result)
        /\ (isDirectory child = true ->
            In (Exists (pathJoin (pathJoin root name) "package.json")
                  (hasManifest child))
              (snd result))
        /\ (hasManifest child = true -> In (pathJoin root name) (fst result))).
Proof.
  intros result. subst result. rewrite findProjects_Dir.
  split; [by rewrite findProjects_Dir|]. split; [by left|].
  assert (forall tree q,
             In q (fst (findProjects root tree)) -> strictlyBelow root q)
    as Below by (intros tree q; apply findProjects_strictlyBelow).
  split.
  { intros H. apply (strictlyBelow_not_self root), (Below (Dir manifest items)).
    by rewrite findProjects_Dir. }
  split; [done|].
  intros before name child after -> Statted.
  destruct (scanItems_examines findProjects root before name child after Statted)
    as (S & E & P).
  simpl fst. simpl snd.
  split; [by right|]. split; [intros D; right; by apply E|done].
Qed.

(** *** Items that cannot be examined *)

(** The loop ends at the first item on which [statSync] throws: what is
    listed after it plays no part. *)
Lemma scanItems_after_failed_stat (F : path -> fsnode -> list path * list event)
    (dir : path) (before : list (string * fsnode)) (name message : string)
    (after : list (string * fsnode)) :
  scanItems F dir (before ++ (name, StatError message) :: after)
  = scanItems F dir (before ++ [(name, StatError message)]).
Proof.
  induction before as [|[name' child'] before IH]; [done|].
  change (((name', child') :: before) ++ (name, StatError message) :: after)
    with ((name', child') :: (before ++ (name, StatError message) :: after)).
  change (((name', child') :: before) ++ [(name, StatError message)])
    with ((name', child') :: (before ++ [(name, StatError message)])).
  simpl. by rewrite IH.
Qed.

(** ** Project Processor *)

Local Ltac in_trace :=
  repeat first [rewrite in_app_iff | progress simpl]; tauto.

Lemma processProjects_app (manifestAt : path -> manifestFile)
    (before after : list path) :
  forall d dv : gmap string string,
    processProjects manifestAt (before ++ after) d dv
    = let '(d1, dv1, t1) := processProjects manifestAt before d dv in
      let '(d2, dv2, t2) := processProjects manifestAt after d1 dv1 in
      (d2, dv2, t1 ++ t2).
Proof.
  induction before as [|projectPath before IH]; intros d dv; simpl.
  - by destruct (processProjects manifestAt after d dv) as [[d2 dv2] t2].
  - destruct (processProject manifestAt projectPath d dv) as [[d' dv'] here].
    rewrite IH.
    destruct (processProjects manifestAt before d' dv') as [[d1 dv1] t1].
    destruct (processProjects manifestAt after d1 dv1) as [[d2 dv2] t2].
    simpl. by rewrite app_assoc.
Qed.

Lemma processProjects_announces (manifestAt : path -> manifestFile)
    (projects : list path) (q : path) :
  forall d dv : gmap string string,
    In q projects ->
    In (Console (Processing q)) (snd (processProjects manifestAt projects d dv)).
Proof.
  induction projects as [|projectPath rest IH]; intros d dv; [done|].
  simpl. destruct (processProject manifestAt projectPath d dv) as [[d' dv'] here].
  specialize (IH d' dv').
  destruct (processProjects manifestAt rest d' dv') as [[d2 dv2] later].
  intros [->|H]; [by left|]. right. apply in_or_app. right. by apply IH.
Qed.

Lemma processProject_fails (manifestAt : path -> manifestFile)
    (projectPath : path) (message : string) (d dv : gmap string string) :
  failsToLoad (manifestAt (pathJoin projectPath "package.json")) = Some message ->
  processProject manifestAt projectPath d dv
  = (d, dv,
     [ReadFile (pathJoin projectPath "package.json");
      Console (CouldNotProcess (pathJoin projectPath "package.json") message)]).
Proof.
  unfold processProject.
  destruct (manifestAt (pathJoin projectPath "package.json"));
    simpl; intros [= ->]; done.
Qed.

(** C5. When the manifest of a discovered project cannot be read or cannot
    be parsed, processing that project prints one warning with the path of
    the manifest and the message of the error and returns both mappings as
    it got them; the loop goes on: it ends with the mappings it would end
    with had the project not been in the list, and each later project is
    processed; and when the report can be written the run ends with exit
    code 0 after the line that reports success. *)
Theorem failed_manifest_is_skipped (w : world) (before after : list path)
    (projectPath : path) (message : string) :
  let packageJsonPath := pathJoin projectPath "package.json" in
  let warning := Console (CouldNotProcess packageJsonPath message) in
  rootExists w = true ->
  fst (findProjects VEGA_PATH (discoveryTree w))
    = before ++ projectPath :: after ->
  failsToLoad (manifestAt w packageJsonPath) = Some message ->
  (forall d dv,
      processProject (manifestAt w) projectPath d dv
      = (d, dv, [ReadFile packageJsonPath; warning]))
  /\ (forall d dv,
        fst (processProjects (manifestAt w) (before ++ projectPath :: after) d dv)
        = fst (processProjects (manifestAt w) (before ++ after) d dv))
  /\ In warning (trace (scanProjects w))
  /\ (forall q, In q after -> In (Console (Processing q)) (trace (scanProjects w)))
  /\ (writeFailure w = None ->
      exitCode (scanProjects w) = 0
      /\ In (Console CompletedSuccessfully) (trace (scanProjects w))).
Proof.
  intros packageJsonPath warning Root Found Fails.
  assert (forall d dv,
             processProject (manifestAt w) projectPath d dv
             = (d, dv, [ReadFile packageJsonPath; warning])) as Skip.
  { intros d dv. by apply processProject_fails. }
  split; [done|]. split.
  { intros d dv. rewrite !processProjects_app.
    destruct (processProjects (manifestAt w) before d dv) as [[d1 dv1] t1].
    simpl. rewrite Skip.
    by destruct (processProjects (manifestAt w) after d1 dv1) as [[d2 dv2] t2]. }
  assert (forall q, In q (snd (processProjects (manifestAt w)
                                 (before ++ projectPath :: after) ∅ ∅)) ->
                    In q (trace (scanProjects w))) as Shown.
  { intros q H. unfold scanProjects. rewrite Root.
    destruct (findProjects VEGA_PATH (discoveryTree w)) as [projects found].
    simpl in Found. subst projects.
    destruct (processProjects (manifestAt w) (before ++ projectPath :: after) ∅ ∅)
      as [[d dv] processed].
    unfold generateResult.
    destruct (findProjects VEGA_PATH (reportTree w)) as [again walked].
    simpl in H.
    unfold saveResult. destruct (writeFailure w); in_trace. }
  split.
  { apply Shown. rewrite processProjects_app.
    destruct (processProjects (manifestAt w) before ∅ ∅) as [[d1 dv1] t1].
    simpl. rewrite Skip.
    destruct (processProjects (manifestAt w) after d1 dv1) as [[d2 dv2] t2].
    simpl. apply in_or_app. right. right. right. by left. }
  split.
  { intros q Hq. apply Shown, processProjects_announces.
    apply in_or_app. right. by right. }
  intros Write. unfold scanProjects. rewrite Root.
  destruct (findProjects VEGA_PATH (discoveryTree w)) as [projects found].
  destruct (processProjects (manifestAt w) projects ∅ ∅) as [[d dv] processed].
  unfold generateResult.
  destruct (findProjects VEGA_PATH (reportTree w)) as [again walked].
  unfold saveResult. rewrite Write. simpl. split; [done|]. in_trace.
Qed.

(** ** Result Builder *)

Lemma lookup_caretPrefixed (versions : gmap string string) (name : string) :
  caretPrefixed versions !! name
  = if decide (name = "__proto__") then None
    else (fun version => "^" +:+ version) <$> versions !! name.
Proof.
  unfold caretPrefixed. revert name.
  apply (map_fold_weak_ind
           (fun (obj versions : gmap string string) =>
              forall name,
                obj !! name
                = if decide (name = "__proto__") then None
                  else (fun version => "^" +:+ version) <$> versions !! name)).
  - intros name. rewrite !lookup_empty. by destruct (decide _).
  - intros i x m obj Fresh IH name. unfold setProperty.
    destruct (decide (i = "__proto__")) as [->|Plain].
    + rewrite IH. destruct (decide (name = "__proto__")) as [->|Other]; [done|].
      by rewrite lookup_insert_ne.
    + destruct (decide (name = i)) as [->|Other].
      * rewrite !lookup_insert_eq. by destruct (decide (i = "__proto__")).
      * rewrite !lookup_insert_ne by done. apply IH.
Qed.

(** Under any name but [__proto__], the report holds the stored version with
    [^] in front, and the normalizer gives the stored version back. *)
Lemma report_versions_round_trip (tree : fsnode) (now : string)
    (d dv : gmap string string) (root : path) (g : group) (name v : string) :
  name <> "__proto__" ->
  groupOf g (d, dv) !! name = Some v ->
  let result := fst (generateResult tree now d dv root) in
  groupOf g (dependencies result, devDependencies result) !! name
    = Some ("^" +:+ v)
  /\ cleanVersion ("^" +:+ v) = v.
Proof.
  intros Plain Stored result. subst result. unfold generateResult.
  destruct (findProjects root tree) as [projects walked].
  split; [|done].
  destruct g; simpl in *; rewrite lookup_caretPrefixed;
    (destruct (decide (name = "__proto__")); [done|by rewrite Stored]).
Qed.

(** C9. The report's [totalProjects] is the number of projects a walk of the
    root returns when the result is built: building the result performs that
    walk, with the tree as it is then, and a run that gets to write its
    report writes that number, whatever number the discovery pass announced
    earlier. *)
Theorem totalProjects_is_recounted (w : world) :
  (forall tree now d dv root,
      totalProjects (fst (generateResult tree now d dv root))
      = length (fst (findProjects root tree))
      /\ snd (generateResult tree now d dv root) = snd (findProjects root tree))
  /\ (rootExists w = true -> writeFailure w = None ->
      exists result,
        written (scanProjects w) = Some result
        /\ totalProjects result
           = length (fst (findProjects VEGA_PATH (reportTree w)))
        /\ In (Console (FoundProjects
                          (length (fst (findProjects VEGA_PATH (discoveryTree w))))))
             (trace (scanProjects w))).
Proof.
  split.
  { intros tree now d dv root. unfold generateResult.
    by destruct (findProjects root tree) as [projects walked]. }
  intros Root Write. unfold scanProjects. rewrite Root.
  destruct (findProjects VEGA_PATH (discoveryTree w)) as [projects found].
  destruct (processProjects (manifestAt w) projects ∅ ∅) as [[d dv] processed].
  unfold generateResult.
  destruct (findProjects VEGA_PATH (reportTree w)) as [again walked].
  unfold saveResult. rewrite Write. eexists. split; [done|]. split; [done|].
  in_trace.
Qed.

(** * Further properties *)

(** ** Version Comparator *)

(** X1. The comparator is a strict weak order on version strings: it is
    transitive and asymmetric, a third version is below the higher or above
    the lower of two, and two versions neither of which is higher than the
    other are ranked alike against every version. *)
Theorem comparator_is_strict_weak_order (a b c : string) :
  (isVersionHigher a b = true -> isVersionHigher b c = true ->
   isVersionHigher a c = true)
  /\ (isVersionHigher a b = true -> isVersionHigher b a = false)
  /\ (isVersionHigher a c = true ->
      isVersionHigher a b = true \/ isVersionHigher b c = true)
  /\ (isVersionHigher a b = false -> isVersionHigher b a = false ->
      isVersionHigher a c = isVersionHigher b c
      /\ isVersionHigher c a = isVersionHigher c b).
Proof.
  split; [apply isVersionHigher_trans|].
  split; [apply isVersionHigher_asym|].
  split; [apply isVersionHigher_between|].
  intros Hab Hba. split; apply eq_true_iff_eq; split; intros H.
  - destruct (isVersionHigher_between a b c H); congruence.
  - destruct (isVersionHigher_between b a c H); congruence.
  - destruct (isVersionHigher_between c b a H); congruence.
  - destruct (isVersionHigher_between c a b H); congruence.
Qed.

Lemma splitDot_nonempty (s : string) : splitDot s <> [].
Proof.
  destruct s as [|c rest]; simpl; [done|].
  destruct (Ascii.eqb c "."); [done|]. by destruct (splitDot rest).
Qed.

Lemma splitDot_app_dot (a s : string) :
  splitDot (a +:+ String "." s) = splitDot a ++ splitDot s.
Proof.
  induction a as [|c a IH]; simpl; [done|].
  destruct (Ascii.eqb c "."); [by rewrite IH|].
  rewrite IH. pose proof (splitDot_nonempty a).
  by destruct (splitDot a).
Qed.

Lemma splitDot_dotFree (s : string) : dotFree s = true -> splitDot s = [s].
Proof.
  induction s as [|c s IH]; simpl; [done|].
  destruct (Ascii.eqb c "."); simpl; [done|].
  intros H. by rewrite (IH H).
Qed.

Lemma partOrZero_falsy_end (parts : list spec_float) (x : spec_float) (i : nat) :
  isFalsyNumber x = true -> partOrZero (parts ++ [x]) i = partOrZero parts i.
Proof.
  intros Falsy. unfold partOrZero.
  destruct (Nat.lt_ge_cases i (length parts)) as [Lt|Ge].
  - by rewrite lookup_app_l.
  - rewrite lookup_app_r by done.
    rewrite (proj2 (lookup_ge_None parts i) Ge).
    destruct (i - length parts) as [|k]; simpl; [by rewrite Falsy|done].
Qed.

Lemma lexGreater_ext (f f' g g' : nat -> spec_float) :
  (forall i, f i = f' i) -> (forall i, g i = g' i) ->
  lexGreater f g <-> lexGreater f' g'.
Proof.
  intros Ff Gg. unfold lexGreater, sameNumber.
  split; intros (i & Same & Gt); exists i; (split; [intros j Hj|]).
  - rewrite <- Ff, <- Gg. by apply Same.
  - by rewrite <- Ff, <- Gg.
  - rewrite Ff, Gg. by apply Same.
  - by rewrite Ff, Gg.
Qed.

(** X2. A last component that [Number] reads as NaN, [0] or [-0] does not
    count: a version followed by a dot and such a component is ranked
    against every version exactly as the version without it. *)
Theorem trailing_zero_component_is_ignored (a s b : string) :
  dotFree s = true -> isFalsyNumber (Number s) = true ->
  isVersionHigher (a +:+ String "." s) b = isVersionHigher a b
  /\ isVersionHigher b (a +:+ String "." s) = isVersionHigher b a.
Proof.
  intros Free Falsy.
  assert (forall i, partOrZero (versionParts (a +:+ String "." s)) i
                    = partOrZero (versionParts a) i) as Same.
  { intros i. unfold versionParts.
    rewrite splitDot_app_dot, (splitDot_dotFree s Free), map_app. simpl.
    by apply partOrZero_falsy_end. }
  split; apply eq_true_iff_eq; rewrite !isVersionHigher_lex;
    by apply lexGreater_ext.
Qed.

(** ** Version Normalizer *)

Lemma cleanVersion_length (x : string) :
  String.length (cleanVersion x) + Nat.min 1 (leadingOperators x)
  = String.length x.
Proof.
  destruct x as [|c rest]; simpl; [done|].
  destruct (isOperatorChar c); simpl; lia.
Qed.

(** X3. Normalizing twice is normalizing once exactly for the strings that
    start with at most one of [^ ~ > = <]; and the normalizer shortens a
    string by one character when it starts with one of them and leaves its
    length alone otherwise. *)
Theorem cleanVersion_idempotent_iff (x : string) :
  (cleanVersion (cleanVersion x) = cleanVersion x <-> leadingOperators x <= 1)
  /\ String.length (cleanVersion x) + Nat.min 1 (leadingOperators x)
     = String.length x.
Proof.
  split; [|apply cleanVersion_length]. split.
  - intros Same.
    pose proof (cleanVersion_length x) as L1.
    pose proof (cleanVersion_length (cleanVersion x)) as L2.
    rewrite Same in L2.
    destruct x as [|c rest]; simpl in *; [lia|].
    destruct (isOperatorChar c); simpl in *; [|lia].
    destruct (leadingOperators rest); simpl in *; lia.
  - destruct x as [|c rest]; simpl; [done|].
    destruct (isOperatorChar c) eqn:Op; simpl.
    + destruct rest as [|c' rest']; simpl; [done|].
      destruct (isOperatorChar c'); [lia|done].
    + by rewrite Op.
Qed.

(** ** Dependency Merger and Project Processor *)

(** X4. Processing projects never removes a name from a mapping and never
    lowers the version stored under it: a name that has a version before
    has afterwards the same version or one the comparator ranks higher. *)
Theorem merging_never_lowers (manifestAt : path -> manifestFile)
    (projects : list path) (d dv : gmap string string)
    (g : group) (name v : string) :
  groupOf g (d, dv) !! name = Some v ->
  exists v',
    groupOf g (fst (processProjects manifestAt projects d dv)) !! name = Some v'
    /\ (v' = v \/ isVersionHigher v' v = true).
Proof.
  intros Before. rewrite processProjects_maps.
  assert (exists m : gmap string string,
             m = groupOf g (d, dv)
             /\ groupOf g
                  (mergeAll (seen Runtime manifestAt projects) d,
                   mergeAll (seen Development manifestAt projects) dv)
                = mergeAll (seen g manifestAt projects) m) as (m & Em & ->).
  { exists (groupOf g (d, dv)). by destruct g. }
  rewrite <- Em in Before.
  pose proof (mergeAll_lookup (seen g manifestAt projects) m name) as L.
  rewrite Before in L. simpl in L.
  destruct (mergeAll (seen g manifestAt projects) m !! name) as [s|];
    [|by destruct L].
  exists s. split; [done|].
  destruct L as (before & after & E & Hb & _).
  destruct before as [|b before]; injection E as <-; [by left|].
  right. apply Hb. by left.
Qed.

(** X5. Started on empty mappings, a mapping ends with exactly the names of
    the entries its merger met: a name has a version exactly when some entry
    met carries it. *)
Theorem final_names_are_the_names_met (manifestAt : path -> manifestFile)
    (projects : list path) (g : group) (name : string) :
  is_Some (groupOf g (fst (processProjects manifestAt projects ∅ ∅)) !! name)
  <-> exists v, In (name, v) (seen g manifestAt projects).
Proof.
  rewrite processProjects_maps.
  assert (groupOf g
            (mergeAll (seen Runtime manifestAt projects) ∅,
             mergeAll (seen Development manifestAt projects) ∅)
          = mergeAll (seen g manifestAt projects) ∅) as -> by (by destruct g).
  pose proof (mergeAll_lookup (seen g manifestAt projects) ∅ name) as L.
  rewrite lookup_empty in L. simpl in L.
  destruct (mergeAll (seen g manifestAt projects) ∅ !! name) as [s|]; split.
  - intros _. exists s. by apply In_versionsOf, firstHighest_In.
  - by intros _.
  - by intros [? ?].
  - intros (v & Hv). apply In_versionsOf in Hv. destruct L as [_ E].
    rewrite E in Hv. destruct Hv.
Qed.

Lemma mergeAll_absorbs (l : list (string * string)) (m : gmap string string) :
  (forall n v, In (n, v) l ->
     exists s, m !! n = Some s /\ isVersionHigher v s = false) ->
  mergeAll l m = m.
Proof.
  induction l as [|[n v] l IH]; intros Low; [done|].
  change (mergeAll ((n, v) :: l) m) with (mergeAll l (mergeVersion m n v)).
  assert (mergeVersion m n v = m) as ->.
  { destruct (Low n v) as (s & Hs & Hv); [by left|].
    unfold mergeVersion. by rewrite Hs, Hv. }
  apply IH. intros n' v' H. apply Low. by right.
Qed.

Lemma mergeAll_covers (l : list (string * string)) (m : gmap string string)
    (n v : string) :
  In (n, v) l ->
  exists s, mergeAll l m !! n = Some s /\ isVersionHigher v s = false.
Proof.
  intros Hin. pose proof (mergeAll_lookup l m n) as L.
  apply In_versionsOf in Hin.
  destruct (mergeAll l m !! n) as [s|].
  - exists s. split; [done|]. apply (firstHighest_highest _ _ _ L).
    apply in_or_app. by right.
  - destruct L as [_ E]. rewrite E in Hin. destruct Hin.
Qed.

Lemma seen_app (g : group) (manifestAt : path -> manifestFile)
    (ps qs : list path) :
  seen g manifestAt (ps ++ qs) = seen g manifestAt ps ++ seen g manifestAt qs.
Proof. unfold seen. apply flat_map_app. Qed.

Lemma mergeEntries_thrown (entries : list (string * json)) :
  forall m m' : gmap string string,
    snd (mergeEntries entries m) = snd (mergeEntries entries m').
Proof.
  induction entries as [|[name version] entries IH]; intros m m'; simpl; [done|].
  destruct (cleanVersionOf version); [done|apply IH].
Qed.

(** X6. Merging again what was merged changes nothing: a dependency group
    processed a second time gives the same mapping and the same error, and
    projects processed again after a list that contains them leave both
    mappings as they were. *)
Theorem merging_again_changes_nothing (manifestAt : path -> manifestFile)
    (projects again : list path) (d dv : gmap string string) :
  (forall deps m,
      processDependencyGroup deps (fst (processDependencyGroup deps m))
      = processDependencyGroup deps m)
  /\ ((forall q, In q again -> In q projects) ->
      fst (processProjects manifestAt (projects ++ again) d dv)
      = fst (processProjects manifestAt projects d dv)).
Proof.
  split.
  - intros deps m. unfold processDependencyGroup.
    apply injective_projections.
    + destruct (mergeEntries_spec (objectEntries deps) m) as [E _].
      destruct (mergeEntries_spec (objectEntries deps)
                  (fst (mergeEntries (objectEntries deps) m))) as [-> _].
      rewrite E. apply mergeAll_absorbs. intros n v H.
      by apply mergeAll_covers.
    + apply mergeEntries_thrown.
  - intros Known. rewrite !processProjects_maps, !seen_app, !mergeAll_app.
    assert (forall g n v, In (n, v) (seen g manifestAt again) ->
                          In (n, v) (seen g manifestAt projects)) as Met.
    { intros g n v H. unfold seen in *. apply in_flat_map in H.
      destruct H as (q & Hq & H). apply in_flat_map. exists q.
      split; [by apply Known|done]. }
    f_equal; apply mergeAll_absorbs; intros n v H;
      by apply mergeAll_covers, Met.
Qed.

Lemma mergeAll_same_entries (l1 l2 : list (string * string)) :
  (forall n v, In (n, v) l1 <-> In (n, v) l2) ->
  noTiesAmong l1 ->
  mergeAll l1 ∅ = mergeAll l2 ∅.
Proof.
  intros Same Total. apply map_eq. intros name.
  pose proof (mergeAll_lookup l1 ∅ name) as L1.
  pose proof (mergeAll_lookup l2 ∅ name) as L2.
  rewrite lookup_empty in L1, L2. simpl in L1, L2.
  assert (forall v, In v (versionsOf name l1) <-> In v (versionsOf name l2))
    as Same'.
  { intros v. rewrite !In_versionsOf. apply Same. }
  destruct (mergeAll l1 ∅ !! name) as [s1|], (mergeAll l2 ∅ !! name) as [s2|].
  - pose proof (firstHighest_In _ _ L1) as I1.
    pose proof (firstHighest_In _ _ L2) as I2.
    pose proof (firstHighest_highest _ _ _ L1 (proj2 (Same' s2) I2)) as H21.
    pose proof (firstHighest_highest _ _ _ L2 (proj1 (Same' s1) I1)) as H12.
    destruct (decide (s1 = s2)) as [->|Hne]; [done|].
    apply In_versionsOf in I1. apply Same', In_versionsOf in I2.
    destruct (Total name s1 s2 I1 I2 Hne); congruence.
  - destruct L2 as [_ E]. apply firstHighest_In, Same' in L1.
    rewrite E in L1. destruct L1.
  - destruct L1 as [_ E]. apply firstHighest_In, Same' in L2.
    rewrite E in L2. destruct L2.
  - done.
Qed.

(** X7. The order in which the projects are processed does not matter when
    the comparator tells apart any two distinct versions met under the same
    name: two orders of the same projects, started on empty mappings, end
    with the same two mappings. *)
Theorem project_order_does_not_matter (manifestAt : path -> manifestFile)
    (projects1 projects2 : list path) :
  Permutation projects1 projects2 ->
  noTiesAmong (seen Runtime manifestAt projects1) ->
  noTiesAmong (seen Development manifestAt projects1) ->
  fst (processProjects manifestAt projects1 ∅ ∅)
  = fst (processProjects manifestAt projects2 ∅ ∅).
Proof.
  intros Perm Runtime Development. rewrite !processProjects_maps.
  assert (forall g n v, In (n, v) (seen g manifestAt projects1)
                        <-> In (n, v) (seen g manifestAt projects2)) as Same.
  { intros g n v. unfold seen. rewrite !in_flat_map.
    split; intros (q & Hq & H); exists q; (split; [|done]).
    - by apply (Permutation_in _ Perm).
    - by apply (Permutation_in _ (Permutation_sym Perm)). }
  f_equal; by apply mergeAll_same_entries.
Qed.

(** X8. An error in a manifest does not undo what the manifest merged
    before it. When a runtime entry has a version that is not a string, the
    runtime entries before it are merged, the development mapping is left
    as it was, and a warning is printed; when the runtime entries are all
    strings and a development entry is not, all runtime entries and the
    development entries before the bad one are merged, with a warning. *)
Theorem manifest_error_keeps_earlier_entries
    (manifestAt : path -> manifestFile) (projectPath : path)
    (packageJson : json) (d dv : gmap string string) :
  manifestAt (pathJoin projectPath "package.json") = Parses packageJson ->
  (allStrings (declared Runtime packageJson) = false ->
   exists message,
     processProject manifestAt projectPath d dv
     = (mergeAll (stringPrefix (declared Runtime packageJson)) d, dv,
        [ReadFile (pathJoin projectPath "package.json");
         Console (CouldNotProcess (pathJoin projectPath "package.json")
                    message)]))
  /\ (allStrings (declared Runtime packageJson) = true ->
      allStrings (declared Development packageJson) = false ->
      exists message,
        processProject manifestAt projectPath d dv
        = (mergeAll (stringPrefix (declared Runtime packageJson)) d,
           mergeAll (stringPrefix (declared Development packageJson)) dv,
           [ReadFile (pathJoin projectPath "package.json");
            Console (CouldNotProcess (pathJoin projectPath "package.json")
                       message)])).
Proof.
  intros File.
  destruct (processProject_spec manifestAt projectPath d dv)
    as (events & E & Warn).
  rewrite File in E, Warn. simpl seenIn in E.
  split.
  - intros R. rewrite R in E.
    assert (processedSuccessfully (Parses packageJson) = false) as Failed.
    { unfold processedSuccessfully. destruct packageJson; try done;
        by rewrite R. }
    rewrite Failed in Warn. destruct Warn as (message & ->).
    by exists message.
  - intros R D. rewrite R in E.
    assert (processedSuccessfully (Parses packageJson) = false) as Failed.
    { unfold processedSuccessfully. destruct packageJson; try done;
        by rewrite R, D. }
    rewrite Failed in Warn. destruct Warn as (message & ->).
    by exists message.
Qed.

(** ** Project Finder *)

Lemma scanItems_walk_events (F : path -> fsnode -> list path * list event)
    (dir : path) (items : list (string * fsnode)) :
  Forall (fun entry =>
            forall dir', forallb isWalkEvent (snd (F dir' (snd entry))) = true)
    items ->
  forallb isWalkEvent (snd (scanItems F dir items)) = true.
Proof.
  induction items as [|[name child] rest IH]; intros Walks; [done|].
  apply List.Forall_cons_iff in Walks. destruct Walks as [Child Rest].
  simpl in Child. specialize (IH Rest).
  destruct (scanItems_cons F dir name child rest)
    as [(m & _ & E)|[(_ & E)|[(_ & _ & E)|(_ & _ & E)]]];
    rewrite E; clear E; simpl; try done.
  rewrite forallb_app, IH. by rewrite (Child (pathJoin dir name)).
Qed.

Lemma findProjects_walk_events (node : fsnode) :
  forall dir, forallb isWalkEvent (snd (findProjects dir node)) = true.
Proof.
  induction node as [|m|manifest m|manifest items IH]
    using fsnode_nested_ind; intros dir; try done.
  rewrite findProjects_Dir. simpl. by apply scanItems_walk_events.
Qed.

Lemma reportsFailureIn_more (events events' : list event) (line : consoleLine) :
  (forall e, In e events -> In e events') ->
  reportsFailureIn events line -> reportsFailureIn events' line.
Proof.
  intros More (d & message & -> & [H|(item & H)]); exists d, message;
    (split; [done|]); [left|right; exists item]; by apply More.
Qed.

Lemma scanItems_reports (F : path -> fsnode -> list path * list event)
    (dir : path) (items : list (string * fsnode)) :
  Forall (fun entry =>
            forall dir' line,
              In (Console line) (snd (F dir' (snd entry))) ->
              reportsFailureIn (snd (F dir' (snd entry))) line)
    items ->
  forall line,
    In (Console line) (snd (scanItems F dir items)) ->
    reportsFailureIn (snd (scanItems F dir items)) line.
Proof.
  induction items as [|[name child] rest IH]; intros Reports line; [done|].
  apply List.Forall_cons_iff in Reports. destruct Reports as [Child Rest].
  specialize (IH Rest line).
  destruct (scanItems_cons F dir name child rest)
    as [(m & _ & E)|[(_ & E)|[(_ & _ & E)|(_ & _ & E)]]];
    rewrite E; clear E; simpl snd.
  - intros [H|[H|[]]]; [discriminate|]. injection H as <-.
    exists dir, m. split; [done|]. right. exists name. by left.
  - intros [H|H]; [discriminate|].
    apply (reportsFailureIn_more (snd (scanItems F dir rest))); [|by apply IH].
    intros e He. by right.
  - intros [H|[H|H]]; try discriminate.
    apply (reportsFailureIn_more (snd (scanItems F dir rest))); [|by apply IH].
    intros e He. right. by right.
  - intros [H|[H|H]]; try discriminate. apply in_app_or in H.
    destruct H as [H|H].
    + apply (reportsFailureIn_more (snd (F (pathJoin dir name) child)));
        [|by apply Child].
      intros e He. right. right. apply in_or_app. by left.
    + apply (reportsFailureIn_more (snd (scanItems F dir rest)));
        [|by apply IH].
      intros e He. right. right. apply in_or_app. by right.
Qed.

Lemma findProjects_reports (node : fsnode) :
  forall dir line,
    In (Console line) (snd (findProjects dir node)) ->
    reportsFailureIn (snd (findProjects dir node)) line.
Proof.
  induction node as [|m|manifest m|manifest items IH]
    using fsnode_nested_ind; intros dir line.
  - intros [H|[H|[]]]; [discriminate|]. injection H as <-.
    eexists _, _. split; [done|]. left. by left.
  - intros [H|[H|[]]]; [discriminate|]. injection H as <-.
    eexists _, _. split; [done|]. left. by left.
  - intros [H|[H|[]]]; [discriminate|]. injection H as <-.
    eexists _, _. split; [done|]. left. by left.
  - rewrite findProjects_Dir. simpl snd. intros [H|H]; [discriminate|].
    apply (reportsFailureIn_more (snd (scanItems findProjects dir items)));
      [intros e He; by right|].
    by apply scanItems_reports.
Qed.

Lemma scanItems_stat_reported (F : path -> fsnode -> list path * list event)
    (dir : path) (items : list (string * fsnode)) (p : path) (message : string) :
  Forall (fun entry =>
            forall dir',
              In (Stat p (Some message)) (snd (F dir' (snd entry))) ->
              exists d item,
                p = pathJoin d item
                /\ In (Console (CouldNotReadDirectory d message))
                     (snd (F dir' (snd entry))))
    items ->
  In (Stat p (Some message)) (snd (scanItems F dir items)) ->
  exists d item,
    p = pathJoin d item
    /\ In (Console (CouldNotReadDirectory d message))
         (snd (scanItems F dir items)).
Proof.
  induction items as [|[name child] rest IH]; intros Reported; [done|].
  apply List.Forall_cons_iff in Reported. destruct Reported as [Child Rest].
  specialize (IH Rest).
  destruct (scanItems_cons F dir name child rest)
    as [(m & _ & E)|[(_ & E)|[(_ & _ & E)|(_ & _ & E)]]];
    rewrite E; clear E; simpl snd.
  - intros [H|[H|[]]]; [|discriminate]. injection H as <- <-.
    exists dir, name. split; [done|]. right. by left.
  - intros [H|H]; [discriminate|].
    destruct (IH H) as (d & item & -> & W). exists d, item.
    split; [done|by right].
  - intros [H|[H|H]]; try discriminate.
    destruct (IH H) as (d & item & -> & W). exists d, item.
    split; [done|right; by right].
  - intros [H|[H|H]]; try discriminate. apply in_app_or in H.
    destruct H as [H|H].
    + destruct (Child _ H) as (d & item & -> & W). exists d, item.
      split; [done|]. right. right. apply in_or_app. by left.
    + destruct (IH H) as (d & item & -> & W). exists d, item.
      split; [done|]. right. right. apply in_or_app. by right.
Qed.

Lemma findProjects_stat_reported (node : fsnode) (p : path) (message : string) :
  forall dir,
    In (Stat p (Some message)) (snd (findProjects dir node)) ->
    exists d item,
      p = pathJoin d item
      /\ In (Console (CouldNotReadDirectory d message))
           (snd (findProjects dir node)).
Proof.
  induction node as [|m|manifest m|manifest items IH]
    using fsnode_nested_ind; intros dir;
    try (intros [H|[H|[]]]; discriminate).
  rewrite findProjects_Dir. simpl snd. intros [H|H]; [discriminate|].
  destruct (scanItems_stat_reported findProjects dir items p message IH H)
    as (d & item & -> & W).
  exists d, item. split; [done|by right].
Qed.

(** X12. A walk prints nothing but warnings for failures that happened:
    every line it prints is the warning for a directory whose listing
    failed or one of whose items could not be examined, with the message of
    that error, and every failed [statSync] is reported, against the
    directory that was being listed. *)
Theorem walk_warnings_report_failures (dir : path) (tree : fsnode) :
  (forall line,
      In (Console line) (snd (findProjects dir tree)) ->
      reportsFailureIn (snd (findProjects dir tree)) line)
  /\ (forall p message,
        In (Stat p (Some message)) (snd (findProjects dir tree)) ->
        exists d item,
          p = pathJoin d item
          /\ In (Console (CouldNotReadDirectory d message))
               (snd (findProjects dir tree))).
Proof.
  split.
  - intros line. apply findProjects_reports.
  - intros p message. apply findProjects_stat_reported.
Qed.

Lemma scanItems_sound (F : path -> fsnode -> list path * list event)
    (dir : path) (items : list (string * fsnode)) (q : path) :
  In q (fst (scanItems F dir items)) ->
  exists name child,
    In (name, child) items
    /\ ((hasManifest child = true /\ q = pathJoin dir name)
        \/ (hasManifest child = false
            /\ In q (fst (F (pathJoin dir name) child)))).
Proof.
  induction items as [|[name child] rest IH]; [done|].
  assert (In q (fst (scanItems F dir rest)) ->
          exists name' child',
            In (name', child') ((name, child) :: rest)
            /\ ((hasManifest child' = true /\ q = pathJoin dir name')
                \/ (hasManifest child' = false
                    /\ In q (fst (F (pathJoin dir name') child'))))) as Later.
  { intros H. destruct (IH H) as (name' & child' & Hin & Hq).
    exists name', child'. split; [by right|done]. }
  destruct (scanItems_cons F dir name child rest)
    as [(m & _ & E)|[(_ & E)|[(_ & M & E)|(_ & M & E)]]];
    rewrite E; clear E; simpl fst.
  - done.
  - exact Later.
  - intros [<-|H]; [|by apply Later].
    exists name, child. split; [by left|]. by left.
  - intros H. apply in_app_or in H. destruct H as [H|H]; [|by apply Later].
    exists name, child. split; [by left|]. by right.
Qed.

Lemma scanItems_complete (F : path -> fsnode -> list path * list event)
    (dir : path) (items : list (string * fsnode))
    (name : string) (child : fsnode) :
  allStatted items -> In (name, child) items ->
  (hasManifest child = true -> In (pathJoin dir name) (fst (scanItems F dir items)))
  /\ (isDirectory child = true -> hasManifest child = false ->
      forall q, In q (fst (F (pathJoin dir name) child)) ->
                In q (fst (scanItems F dir items))).
Proof.
  induction items as [|[name' child'] rest IH]; intros Statted Hin; [done|].
  assert (allStatted rest) as Statted'.
  { intros item message H. apply (Statted item message). by right. }
  destruct (scanItems_cons F dir name' child' rest)
    as [(m & -> & _)|[(C & E)|[(D & M & E)|(D & M & E)]]];
    try rewrite E; simpl fst.
  - exfalso. apply (Statted name' m). by left.
  - destruct Hin as [[= -> ->]|Hin]; [subst child; by split|by apply IH].
  - destruct Hin as [[= -> ->]|Hin].
    + split; [by left|congruence].
    + destruct (IH Statted' Hin) as [P R].
      split; [intros H; right; by apply P|intros ? ? q Hq; right; by apply R].
  - destruct Hin as [[= -> ->]|Hin].
    + split; [congruence|]. intros _ _ q Hq. apply in_or_app. by left.
    + destruct (IH Statted' Hin) as [P R].
      split; [intros H; apply in_or_app; right; by apply P|].
      intros ? ? q Hq. apply in_or_app. right. by apply R.
Qed.

Lemma findProjects_sound (node : fsnode) :
  forall root q,
    In q (fst (findProjects root node)) ->
    exists suffix, q = root ++ suffix /\ shallowest node suffix.
Proof.
  induction node as [|m|manifest m|manifest items IH]
    using fsnode_nested_ind; intros root q; try done.
  rewrite findProjects_Dir. simpl fst. intros H.
  destruct (scanItems_sound findProjects root items q H)
    as (name & child & Hin & [[M ->]|[M Hq]]).
  - exists [name]. split; [done|]. by apply (shallowest_here _ _ name child).
  - rewrite List.Forall_forall in IH.
    destruct (IH (name, child) Hin (pathJoin root name) q Hq)
      as (suffix & -> & Deep).
    exists (name :: suffix). split.
    + unfold pathJoin. by rewrite <- app_assoc.
    + by apply (shallowest_below _ _ name child).
Qed.

Lemma statsSucceed_items (manifest : bool) (items : list (string * fsnode)) :
  statsSucceed (Dir manifest items) = true ->
  allStatted items
  /\ forall name child, In (name, child) items -> statsSucceed child = true.
Proof.
  simpl. rewrite forallb_forall. intros All. split.
  - intros item message H. by specialize (All _ H).
  - intros name child H. by apply (All (name, child)).
Qed.

Lemma findProjects_complete (node : fsnode) (suffix : list string) :
  shallowest node suffix ->
  statsSucceed node = true ->
  forall root, In (root ++ suffix) (fst (findProjects root node)).
Proof.
  induction 1 as [manifest items name child Hin M
                 |manifest items name child rest Hin M Deep IH];
    intros Stats root; rewrite findProjects_Dir; simpl fst;
    destruct (statsSucceed_items _ _ Stats) as [Statted Children].
  - by apply (proj1 (scanItems_complete findProjects root items name child
                         Statted Hin)).
  - assert (isDirectory child = true) as D by (by destruct Deep).
    apply (proj2 (scanItems_complete findProjects root items name child
                    Statted Hin) D M).
    specialize (IH (Children name child Hin) (pathJoin root name)).
    unfold pathJoin in IH. by rewrite <- app_assoc in IH.
Qed.

(** X9. What a walk returns are directories that hold a manifest, strictly
    below the start, with no directory holding one on the way down from the
    start; and when no [statSync] fails in the tree, it returns every such
    directory. *)
Theorem projects_are_the_shallowest_manifests (root : path) (tree : fsnode) :
  (forall q, In q (fst (findProjects root tree)) ->
             exists suffix, q = root ++ suffix /\ shallowest tree suffix)
  /\ (statsSucceed tree = true ->
      forall suffix, shallowest tree suffix ->
                     In (root ++ suffix) (fst (findProjects root tree))).
Proof.
  split.
  - intros q. apply findProjects_sound.
  - intros Stats suffix Deep. by apply findProjects_complete.
Qed.

Lemma hasManifest_withoutProjectContents (node : fsnode) :
  hasManifest (withoutProjectContents node) = hasManifest node.
Proof. by destruct node. Qed.

Lemma scanItems_withoutProjectContents (dir : path)
    (items : list (string * fsnode)) :
  Forall (fun entry =>
            forall dir',
              findProjects dir' (withoutProjectContents (snd entry))
              = findProjects dir' (snd entry))
    items ->
  scanItems findProjects dir
    (map (fun entry =>
            (fst entry,
             if hasManifest (snd entry) then Dir true []
             else withoutProjectContents (snd entry)))
       items)
  = scanItems findProjects dir items.
Proof.
  induction items as [|[name child] rest IH]; intros Same; [done|].
  apply List.Forall_cons_iff in Same. destruct Same as [Child Rest].
  specialize (IH Rest). simpl in Child.
  set (pruned := map _ rest) in *.
  change (map _ ((name, child) :: rest))
    with ((name, if hasManifest child then Dir true []
                 else withoutProjectContents child) :: pruned).
  destruct (scanItems_cons findProjects dir name child rest)
    as [(message & -> & E)|[(-> & E)|[(D & M & E)|(D & M & E)]]];
    rewrite E; clear E; try rewrite M.
  - done.
  - simpl hasManifest. cbv iota. simpl withoutProjectContents.
    destruct (scanItems_cons findProjects dir name File pruned)
      as [(message & ? & _)|[(_ & E)|[(? & _)|(? & _)]]]; try done.
    by rewrite E, IH.
  - destruct (scanItems_cons findProjects dir name (Dir true []) pruned)
      as [(message & ? & _)|[(? & _)|[(_ & _ & E)|(_ & ? & _)]]]; try done.
    by rewrite E, IH.
  - destruct (scanItems_cons findProjects dir name
                (withoutProjectContents child) pruned)
      as [(message & C & _)|[(C & _)|[(_ & M' & _)|(_ & _ & E)]]].
    + destruct child; done.
    + destruct child; done.
    + rewrite hasManifest_withoutProjectContents in M'. congruence.
    + by rewrite E, IH, Child.
Qed.

(** X10. What lies inside a directory that holds a manifest, below the
    start, plays no part in a walk: with every such directory emptied the
    walk returns the same projects and makes the same calls and prints the
    same lines, in the same order. *)
Theorem project_contents_are_never_read (dir : path) (tree : fsnode) :
  findProjects dir (withoutProjectContents tree) = findProjects dir tree.
Proof.
  revert dir.
  induction tree as [|m|manifest m|manifest items IH]
    using fsnode_nested_ind; intros dir; try done.
  simpl withoutProjectContents. rewrite !findProjects_Dir.
  by rewrite scanItems_withoutProjectContents.
Qed.

Lemma under_same (dir : path) (n1 n2 : string) (q : path) :
  under dir n1 q -> under dir n2 q -> n1 = n2.
Proof.
  intros [r1 ->] [r2 E]. apply app_inv_head in E. congruence.
Qed.

Lemma scanItems_found (F : path -> fsnode -> list path * list event)
    (dir : path) (items : list (string * fsnode)) :
  Forall (fun entry =>
            forall dir' q,
              In q (fst (F dir' (snd entry))) ->
              foundManifestIn (snd (F dir' (snd entry))) q)
    items ->
  forall q,
    In q (fst (scanItems F dir items)) ->
    foundManifestIn (snd (scanItems F dir items)) q.
Proof.
  induction items as [|[name child] rest IH]; intros Found q; [done|].
  apply List.Forall_cons_iff in Found. destruct Found as [Child Rest].
  specialize (IH Rest q). unfold foundManifestIn in *.
  destruct (scanItems_cons F dir name child rest)
    as [(m & _ & E)|[(_ & E)|[(_ & _ & E)|(_ & _ & E)]]];
    rewrite E; clear E; simpl fst; simpl snd.
  - done.
  - intros H. right. by apply IH.
  - intros [<-|H]; [right; by left|right; right; by apply IH].
  - intros H. apply in_app_or in H. right. right. apply in_or_app.
    destruct H as [H|H]; [left; by apply Child|right; by apply IH].
Qed.

Lemma findProjects_found (node : fsnode) :
  forall dir q,
    In q (fst (findProjects dir node)) ->
    foundManifestIn (snd (findProjects dir node)) q.
Proof.
  induction node as [|m|manifest m|manifest items IH]
    using fsnode_nested_ind; intros dir q; try done.
  rewrite findProjects_Dir. simpl fst. simpl snd. intros H. right.
  by apply scanItems_found.
Qed.

Lemma scanItems_NoDup (dir : path) (items : list (string * fsnode)) :
  NoDup (map fst items) ->
  Forall (fun entry => forall dir', NoDup (fst (findProjects dir' (snd entry))))
    items ->
  NoDup (fst (scanItems findProjects dir items)).
Proof.
  induction items as [|[name child] rest IH]; intros Names Distinct;
    [constructor|].
  apply NoDup_cons in Names. destruct Names as [Fresh Names].
  apply List.Forall_cons_iff in Distinct. destruct Distinct as [Child Rest].
  specialize (IH Names Rest). simpl in Child.
  assert (forall q, In q (fst (scanItems findProjects dir rest)) ->
                    ~ under dir name q) as Apart.
  { intros q H U.
    destruct (scanItems_under dir rest q) as (name' & I & U'); [by left|].
    apply Fresh. rewrite (under_same dir name name' q U U').
    by apply list_elem_of_In. }
  destruct (scanItems_cons findProjects dir name child rest)
    as [(m & _ & E)|[(_ & E)|[(_ & _ & E)|(_ & _ & E)]]];
    rewrite E; clear E; simpl fst.
  - constructor.
  - done.
  - apply NoDup_cons. split; [|done].
    intros H. apply list_elem_of_In in H. apply (Apart _ H). by exists [].
  - apply NoDup_app. split; [apply Child|]. split; [|done].
    intros q Hq Hq'. apply list_elem_of_In in Hq, Hq'.
    apply (Apart q Hq'), under_join, (findProjects_prefix child). by left.
Qed.

Lemma findProjects_NoDup (node : fsnode) :
  uniqueNames node = true ->
  forall dir, NoDup (fst (findProjects dir node)).
Proof.
  induction node as [|m|manifest m|manifest items IH]
    using fsnode_nested_ind; intros Unique dir; try constructor.
  rewrite findProjects_Dir. simpl fst.
  simpl in Unique. apply andb_true_iff in Unique.
  destruct Unique as [Names Children]. apply bool_decide_eq_true in Names.
  apply scanItems_NoDup; [done|].
  apply List.Forall_forall. intros entry Hentry.
  rewrite List.Forall_forall in IH. apply (IH entry Hentry).
  rewrite forallb_forall in Children. by apply Children.
Qed.

(** X11. In a tree where no directory lists a name twice, a walk returns no
    project twice and no project that lies inside another project it
    returns; and every project returned is a directory the walk tested and
    found a manifest in. *)
Theorem projects_are_distinct_and_not_nested (root : path) (tree : fsnode) :
  (forall q, In q (fst (findProjects root tree)) ->
             foundManifestIn (snd (findProjects root tree)) q)
  /\ (uniqueNames tree = true ->
      NoDup (fst (findProjects root tree))
      /\ forall p q,
          In p (fst (findProjects root tree)) ->
          In q (fst (findProjects root tree)) ->
          p `prefix_of` q -> p = q).
Proof.
  split; [intros q; apply findProjects_found|].
  intros Unique. split; [by apply findProjects_NoDup|].
  intros p q Hp Hq Prefix.
  destruct (findProjects_leaf tree Unique root p
              (findProjects_found tree root p Hp)) as (_ & _ & Alone).
  symmetry. by apply Alone.
Qed.

(** *** Directories that cannot be listed *)

Lemma hasManifest_unreadableAsEmpty (node : fsnode) :
  hasManifest (unreadableAsEmpty node) = hasManifest node.
Proof. by destruct node. Qed.

Lemma scanItems_unreadableAsEmpty (dir : path) (items : list (string * fsnode)) :
  Forall (fun entry =>
            forall dir',
              fst (findProjects dir' (snd entry))
              = fst (findProjects dir' (unreadableAsEmpty (snd entry))))
    items ->
  fst (scanItems findProjects dir items)
  = fst (scanItems findProjects dir
           (map (fun entry => (fst entry, unreadableAsEmpty (snd entry))) items)).
Proof.
  induction items as [|[name child] rest IH]; intros Same; [done|].
  apply List.Forall_cons_iff in Same. destruct Same as [Child Rest].
  specialize (IH Rest). simpl in Child.
  change (map (fun entry => (fst entry, unreadableAsEmpty (snd entry)))
            ((name, child) :: rest))
    with ((name, unreadableAsEmpty child)
            :: map (fun entry => (fst entry, unreadableAsEmpty (snd entry))) rest).
  destruct (scanItems_cons findProjects dir name child rest)
    as [(message & -> & E)|[(-> & E)|[(D & M & E)|(D & M & E)]]];
    rewrite E; clear E.
  - done.
  - simpl unreadableAsEmpty.
    destruct (scanItems_cons findProjects dir name File
                (map (fun entry => (fst entry, unreadableAsEmpty (snd entry))) rest))
      as [(message & ? & _)|[(_ & E)|[(? & _)|(? & _)]]]; try done.
    rewrite E. exact IH.
  - destruct (scanItems_cons findProjects dir name (unreadableAsEmpty child)
                (map (fun entry => (fst entry, unreadableAsEmpty (snd entry))) rest))
      as [(message & C & _)|[(C & _)|[(_ & _ & E)|(_ & M' & _)]]].
    + destruct child; done.
    + destruct child; done.
    + rewrite E. simpl. by rewrite IH.
    + rewrite hasManifest_unreadableAsEmpty in M'. congruence.
  - destruct (scanItems_cons findProjects dir name (unreadableAsEmpty child)
                (map (fun entry => (fst entry, unreadableAsEmpty (snd entry))) rest))
      as [(message & C & _)|[(C & _)|[(_ & M' & _)|(_ & _ & E)]]].
    + destruct child; done.
    + destruct child; done.
    + rewrite hasManifest_unreadableAsEmpty in M'. congruence.
    + rewrite E. simpl. by rewrite IH, Child.
Qed.

Lemma findProjects_unreadableAsEmpty (node : fsnode) :
  forall dir,
    fst (findProjects dir node) = fst (findProjects dir (unreadableAsEmpty node)).
Proof.
  induction node as [|message|manifest message|manifest items IH]
    using fsnode_nested_ind; intros dir; try done.
  simpl unreadableAsEmpty. rewrite !findProjects_Dir. simpl.
  by apply scanItems_unreadableAsEmpty.
Qed.

Lemma scanItems_warns (F : path -> fsnode -> list path * list event)
    (dir : path) (items : list (string * fsnode)) (d : path) (message : string) :
  Forall (fun entry =>
            forall dir',
              In (ReadDir d (Some message)) (snd (F dir' (snd entry))) ->
              In (Console (CouldNotReadDirectory d message))
                (snd (F dir' (snd entry))))
    items ->
  In (ReadDir d (Some message)) (snd (scanItems F dir items)) ->
  In (Console (CouldNotReadDirectory d message)) (snd (scanItems F dir items)).
Proof.
  induction items as [|[name child] rest IH]; intros Warns; [done|].
  apply List.Forall_cons_iff in Warns. destruct Warns as [Child Rest].
  specialize (IH Rest).
  destruct (scanItems_cons F dir name child rest)
    as [(m & _ & E)|[(_ & E)|[(_ & _ & E)|(_ & _ & E)]]];
    rewrite E; clear E; simpl snd.
  - intros [H|[H|[]]]; discriminate.
  - intros [H|H]; [discriminate|]. right. by apply IH.
  - intros [H|[H|H]]; try discriminate. right. right. by apply IH.
  - intros [H|[H|H]]; try discriminate. right. right.
    apply in_app_or in H. apply in_or_app.
    destruct H as [H|H]; [left; by apply Child|right; by apply IH].
Qed.

Lemma findProjects_warns (node : fsnode) (d : path) (message : string) :
  forall dir,
    In (ReadDir d (Some message)) (snd (findProjects dir node)) ->
    In (Console (CouldNotReadDirectory d message)) (snd (findProjects dir node)).
Proof.
  induction node as [|m|manifest m|manifest items IH]
    using fsnode_nested_ind; intros dir.
  - intros [H|[H|[]]]; try discriminate. injection H as <- <-. right. by left.
  - intros [H|[H|[]]]; try discriminate. injection H as <- <-. right. by left.
  - intros [H|[H|[]]]; try discriminate. injection H as <- <-. right. by left.
  - rewrite findProjects_Dir. simpl snd. intros [H|H]; [discriminate|].
    right. by apply scanItems_warns.
Qed.

Lemma scanItems_barren (dir : path) (items : list (string * fsnode))
    (d : path) (message : string) :
  NoDup (map fst items) ->
  Forall (fun entry =>
            forall dir',
              In (ReadDir d (Some message)) (snd (findProjects dir' (snd entry))) ->
              forall q, In q (fst (findProjects dir' (snd entry))) ->
                        ~ d `prefix_of` q)
    items ->
  In (ReadDir d (Some message)) (snd (scanItems findProjects dir items)) ->
  forall q, In q (fst (scanItems findProjects dir items)) -> ~ d `prefix_of` q.
Proof.
  induction items as [|[name child] rest IH]; intros Names Barren; [done|].
  apply NoDup_cons in Names. destruct Names as [Fresh Names].
  apply List.Forall_cons_iff in Barren. destruct Barren as [Child Barren].
  specialize (IH Names Barren).
  set (later := scanItems findProjects dir rest) in *.
  set (fullPath := pathJoin dir name) in *.
  assert (forall p, touches later p ->
                    exists name', name' <> name /\ under dir name' p) as Apart.
  { intros p H. destruct (scanItems_under dir rest p H) as (name' & I & U).
    exists name'. split; [|done]. intros ->.
    apply Fresh. by apply list_elem_of_In. }
  assert (forall p, under dir name d -> touches later p -> ~ d `prefix_of` p)
    as Mine.
  { intros p U H. destruct (Apart p H) as (name' & Hne & U').
    by apply (under_disjoint dir name name'). }
  assert (forall p, touches later d -> under dir name p -> ~ d `prefix_of` p)
    as Theirs.
  { intros p H U. destruct (Apart d H) as (name' & Hne & U').
    by apply (under_disjoint dir name' name). }
  assert (under dir name fullPath) as Here by (by exists []).
  assert (In (ReadDir d (Some message)) (snd later) -> touches later d) as Touch.
  { intros H. right. left. by exists (Some message). }
  destruct (scanItems_cons findProjects dir name child rest)
    as [(m & _ & E)|[(_ & E)|[(_ & _ & E)|(_ & _ & E)]]];
    fold later in E; fold fullPath in E; rewrite E; clear E;
    simpl fst; simpl snd.
  - done.
  - intros [H|H]; [discriminate|]. by apply IH.
  - intros [H|[H|H]]; try discriminate.
    intros q [<-|Hq]; [by apply Theirs; [apply Touch|]|by apply IH].
  - set (inner := findProjects fullPath child) in *.
    assert (forall p, touches inner p -> under dir name p) as Inside.
    { intros p H. by apply under_join, (findProjects_prefix child). }
    intros [H|[H|H]]; try discriminate.
    apply in_app_or in H. intros q Hq. apply in_app_or in Hq.
    destruct H as [H|H], Hq as [Hq|Hq].
    + by apply (Child fullPath).
    + apply Mine; [|by left]. apply Inside. right. left. by exists (Some message).
    + apply Theirs; [by apply Touch|]. apply Inside. by left.
    + by apply IH.
Qed.

(** Nothing at or below a directory that could not be listed is returned. *)
Lemma findProjects_barren (node : fsnode) (d : path) (message : string) :
  uniqueNames node = true ->
  forall dir,
    In (ReadDir d (Some message)) (snd (findProjects dir node)) ->
    forall q, In q (fst (findProjects dir node)) -> ~ d `prefix_of` q.
Proof.
  induction node as [|m|manifest m|manifest items IH]
    using fsnode_nested_ind; intros Unique dir; try done.
  rewrite findProjects_Dir. simpl fst. simpl snd.
  intros [H|H]; [discriminate|].
  simpl in Unique. apply andb_true_iff in Unique.
  destruct Unique as [Names Children]. apply bool_decide_eq_true in Names.
  apply (scanItems_barren dir items d message); [done| |done].
  apply List.Forall_forall. intros entry Hentry.
  rewrite List.Forall_forall in IH. apply (IH entry Hentry).
  rewrite forallb_forall in Children. by apply Children.
Qed.

(** X20. A directory whose listing cannot be read ([readdirSync] throws)
    gives no project and one warning that names it and the error. In any
    walk, every failed listing is followed by such a warning, no project at
    or below the directory is returned (in a tree where no directory lists a
    name twice), and the projects returned are those of the same tree with
    every such directory empty: the walk goes on and the other directories
    give what they would give anyway. *)
Theorem unreadable_directory_is_skipped (dir : path) (tree : fsnode) :
  (forall manifest message,
      findProjects dir (DirUnreadable manifest message)
      = ([], [ReadDir dir (Some message);
              Console (CouldNotReadDirectory dir message)]))
  /\ (forall d message,
        In (ReadDir d (Some message)) (snd (findProjects dir tree)) ->
        In (Console (CouldNotReadDirectory d message))
          (snd (findProjects dir tree))
        /\ (uniqueNames tree = true ->
            forall q, In q (fst (findProjects dir tree)) -> ~ d `prefix_of` q))
  /\ fst (findProjects dir tree)
     = fst (findProjects dir (unreadableAsEmpty tree)).
Proof.
  split; [done|]. split; [|apply findProjects_unreadableAsEmpty].
  intros d message Failed. split; [by apply findProjects_warns|].
  intros Unique. by apply (findProjects_barren tree d message).
Qed.

(** ** Orchestrator and Result Builder *)

Lemma processProjects_events (manifestAt : path -> manifestFile)
    (projects : list path) :
  forall d dv : gmap string string,
    forallb isProcessingEvent (snd (processProjects manifestAt projects d dv))
      = true
    /\ omap processedPath (snd (processProjects manifestAt projects d dv))
       = projects
    /\ omap readPath (snd (processProjects manifestAt projects d dv))
       = map (fun p => pathJoin p "package.json") projects.
Proof.
  induction projects as [|projectPath rest IH]; intros d dv; [done|].
  simpl processProjects.
  destruct (processProject_spec manifestAt projectPath d dv)
    as (events & -> & Warn).
  match goal with
  | |- context [processProjects manifestAt rest ?d' ?dv'] =>
      destruct (IH d' dv') as (K & P & R);
      destruct (processProjects manifestAt rest d' dv') as [[d2 dv2] later]
  end.
  destruct (processedSuccessfully _).
  - subst events. simpl in *.
    split; [done|]. split; f_equal; [exact P|exact R].
  - destruct Warn as (message & ->). simpl in *.
    split; [done|]. split; f_equal; [exact P|exact R].
Qed.

Lemma walk_events_are_silent (events : list event) :
  forallb isWalkEvent events = true ->
  omap processedPath events = [] /\ omap readPath events = []
  /\ ~ In (Console CompletedSuccessfully) events
  /\ forall cause, ~ In (Console (ErrorDuringScanning cause)) events.
Proof.
  induction events as [|e events IH]; simpl; [by auto|].
  intros H. apply andb_true_iff in H. destruct H as [He H].
  destruct (IH H) as (P & R & C & E).
  destruct e as [| | | | |[| | | | | | | |]]; try discriminate; simpl;
    (split; [done|]; split; [done|]; split;
     [intros [?|?]; [discriminate|done]
     |intros cause [?|?]; [discriminate|by apply (E cause)]]).
Qed.

Lemma processing_events_are_not_final (events : list event) :
  forallb isProcessingEvent events = true ->
  ~ In (Console CompletedSuccessfully) events
  /\ forall cause, ~ In (Console (ErrorDuringScanning cause)) events.
Proof.
  rewrite forallb_forall. intros All. split.
  - intros H. by specialize (All _ H).
  - intros cause H. by specialize (All _ H).
Qed.

(** A run whose root exists, by its parts. *)
Lemma scanProjects_unfold (w : world) :
  rootExists w = true ->
  let projects := fst (findProjects VEGA_PATH (discoveryTree w)) in
  let found := snd (findProjects VEGA_PATH (discoveryTree w)) in
  let run := processProjects (manifestAt w) projects ∅ ∅ in
  let result :=
    fst (generateResult (reportTree w) (now w) (fst (fst run)) (snd (fst run))
           VEGA_PATH) in
  let walked := snd (findProjects VEGA_PATH (reportTree w)) in
  let outputPath := pathJoin (scriptDir w) "list.json" in
  let before :=
    [Console (ScanningProjectsIn VEGA_PATH); Exists VEGA_PATH true]
      ++ found ++ [Console (FoundProjects (length projects))]
      ++ snd run ++ walked in
  scanProjects w
  = match writeFailure w with
    | None =>
        {| trace := before
             ++ [WriteFile outputPath None; Console (ResultsSavedTo outputPath)]
             ++ [Console CompletedSuccessfully; Console (foundLine result)];
           exitCode := 0;
           written := Some result |}
    | Some message =>
        {| trace := before
             ++ [WriteFile outputPath (Some message)]
             ++ [Console (ErrorDuringScanning (Uncaught message))];
           exitCode := 1;
           written := None |}
    end.
Proof.
  intros Root. unfold scanProjects, generateResult, saveResult. rewrite Root.
  destruct (findProjects VEGA_PATH (discoveryTree w)) as [projects found].
  cbn [fst snd].
  destruct (processProjects (manifestAt w) projects ∅ ∅) as [[d dv] processed].
  cbn [fst snd].
  destruct (findProjects VEGA_PATH (reportTree w)) as [again walked].
  by destruct (writeFailure w).
Qed.

Lemma scanProjects_processed (w : world) :
  rootExists w = true ->
  omap processedPath (trace (scanProjects w))
  = fst (findProjects VEGA_PATH (discoveryTree w))
  /\ omap readPath (trace (scanProjects w))
     = map (fun p => pathJoin p "package.json")
         (fst (findProjects VEGA_PATH (discoveryTree w))).
Proof.
  intros Root. rewrite (scanProjects_unfold w Root).
  destruct (walk_events_are_silent _
              (findProjects_walk_events (discoveryTree w) VEGA_PATH))
    as (P1 & R1 & _).
  destruct (walk_events_are_silent _
              (findProjects_walk_events (reportTree w) VEGA_PATH))
    as (P2 & R2 & _).
  destruct (processProjects_events (manifestAt w)
              (fst (findProjects VEGA_PATH (discoveryTree w))) ∅ ∅)
    as (_ & P & R).
  destruct (writeFailure w); cbn [trace];
    rewrite !omap_app, P1, R1, P2, R2, P, R; simpl;
    by rewrite !app_nil_r.
Qed.

(** X13. A run whose root exists prints one [Processing] line for each
    project the discovery walk returned, in the order of that list, and
    reads one file for each, its [package.json], in the same order; it
    prints no other [Processing] line and reads no other file. A run whose
    root does not exist prints none and reads none. *)
Theorem projects_are_processed_once_in_order (w : world) :
  let projects :=
    if rootExists w then fst (findProjects VEGA_PATH (discoveryTree w))
    else [] in
  omap processedPath (trace (scanProjects w)) = projects
  /\ omap readPath (trace (scanProjects w))
     = map (fun p => pathJoin p "package.json") projects.
Proof.
  destruct (rootExists w) eqn:Root; simpl.
  - by apply scanProjects_processed.
  - unfold scanProjects. by rewrite Root.
Qed.

(** X14. The exit code of a run is 0 or 1. It is 0 exactly when the root
    exists and the report can be written, exactly when a report is written,
    and exactly when the line that reports success is printed; it is 1
    exactly when an error line is printed. When the root does not exist the
    run does nothing but print the start line, test the root, and print the
    error. *)
Theorem exit_status_tells_the_outcome (w : world) :
  (exitCode (scanProjects w) = 0 \/ exitCode (scanProjects w) = 1)
  /\ (exitCode (scanProjects w) = 0 <->
      rootExists w = true /\ writeFailure w = None)
  /\ (is_Some (written (scanProjects w)) <-> exitCode (scanProjects w) = 0)
  /\ (In (Console CompletedSuccessfully) (trace (scanProjects w)) <->
      exitCode (scanProjects w) = 0)
  /\ ((exists cause,
          In (Console (ErrorDuringScanning cause)) (trace (scanProjects w)))
      <-> exitCode (scanProjects w) = 1)
  /\ (rootExists w = false ->
      trace (scanProjects w)
      = [Console (ScanningProjectsIn VEGA_PATH); Exists VEGA_PATH false;
         Console (ErrorDuringScanning (VegaFolderNotFound VEGA_PATH))]).
Proof.
  destruct (rootExists w) eqn:Root.
  2:{ unfold scanProjects. rewrite Root. simpl.
      split; [by right|]. split; [split; [done|by intros [? _]]|].
      split; [split; [by intros [? ?]|done]|].
      split; [split; [|done]|].
      { intros [H|[H|[H|[]]]]; discriminate. }
      split; [|done]. split; [done|]. intros _.
      eexists. right. right. by left. }
  rewrite (scanProjects_unfold w Root).
  destruct (walk_events_are_silent _
              (findProjects_walk_events (discoveryTree w) VEGA_PATH))
    as (_ & _ & C1 & E1).
  destruct (walk_events_are_silent _
              (findProjects_walk_events (reportTree w) VEGA_PATH))
    as (_ & _ & C2 & E2).
  destruct (processProjects_events (manifestAt w)
              (fst (findProjects VEGA_PATH (discoveryTree w))) ∅ ∅)
    as (K & _ & _).
  destruct (processing_events_are_not_final _ K) as (C3 & E3).
  destruct (writeFailure w) as [message|]; cbn [trace exitCode written].
  - split; [by right|]. split; [split; [done|by intros [_ ?]]|].
    split; [split; [by intros [? ?]|done]|].
    split.
    { split; [|done]. rewrite !in_app_iff. simpl.
      intuition (try discriminate). }
    split; [|done]. split; [done|]. intros _.
    exists (Uncaught message). rewrite !in_app_iff. simpl. tauto.
  - split; [by left|]. split; [done|].
    split; [split; [done|by eexists]|].
    split.
    { split; [done|]. intros _. rewrite !in_app_iff. simpl. tauto. }
    split; [|done]. split; [|done]. intros (cause & H). exfalso.
    specialize (E1 cause). specialize (E2 cause). specialize (E3 cause).
    revert H. rewrite !in_app_iff. simpl. unfold foundLine.
    intuition (try discriminate).
Qed.

Lemma caretPrefixed_delete (versions : gmap string string) :
  caretPrefixed versions
  = (fun version => "^" +:+ version) <$> delete "__proto__" versions.
Proof.
  apply map_eq. intros name.
  rewrite lookup_caretPrefixed, lookup_fmap.
  destruct (decide (name = "__proto__")) as [->|Other].
  - by rewrite lookup_delete_eq.
  - by rewrite lookup_delete_ne.
Qed.

(** X15. The report invents nothing: a value it holds under a name in a
    group is the version the mapping of that group stores under that name
    with [^] in front, and the normalizer gives that version back. The
    number of names in a group of the report is the count the summary gives
    for it, less one when the mapping has the name [__proto__]. *)
Theorem report_holds_only_stored_versions (tree : fsnode) (now : string)
    (d dv : gmap string string) (root : path) (g : group) :
  let result := fst (generateResult tree now d dv root) in
  (forall name value,
      groupOf g (dependencies result, devDependencies result) !! name
        = Some value ->
      exists v,
        groupOf g (d, dv) !! name = Some v
        /\ value = "^" +:+ v /\ cleanVersion value = v)
  /\ size (groupOf g (dependencies result, devDependencies result))
     = match groupOf g (d, dv) !! "__proto__" with
       | Some _ =>
           Nat.pred (groupOf g (totalDependencies (summary result),
                                totalDevDependencies (summary result)))
       | None =>
           groupOf g (totalDependencies (summary result),
                      totalDevDependencies (summary result))
       end.
Proof.
  intros result. subst result. unfold generateResult.
  destruct (findProjects root tree) as [projects walked]. simpl.
  assert (forall m : gmap string string,
             (forall name value,
                 caretPrefixed m !! name = Some value ->
                 exists v, m !! name = Some v
                           /\ value = "^" +:+ v /\ cleanVersion value = v)
             /\ size (caretPrefixed m)
                = match m !! "__proto__" with
                  | Some _ => Nat.pred (size m)
                  | None => size m
                  end) as Both.
  { intros m. split.
    - intros name value. rewrite lookup_caretPrefixed.
      destruct (decide (name = "__proto__")); [done|].
      destruct (m !! name) as [v|]; [|done].
      intros [= <-]. by exists v.
    - rewrite caretPrefixed_delete, map_size_fmap, map_size_delete.
      by destruct (m !! "__proto__"). }
  destruct g; simpl; apply Both.
Qed.

(** X16. When the tree is the same at both walks and the report is written,
    the report's [totalProjects] is the number of projects announced after
    discovery and the number of projects processed, and everything the
    discovery walk did and printed, its warnings included, occurs a second
    time in the run. *)
Theorem unchanged_tree_counts_agree (w : world) :
  rootExists w = true -> writeFailure w = None ->
  reportTree w = discoveryTree w ->
  exists result,
    written (scanProjects w) = Some result
    /\ totalProjects result
       = length (omap processedPath (trace (scanProjects w)))
    /\ In (Console (FoundProjects (totalProjects result)))
         (trace (scanProjects w))
    /\ exists before between after,
        trace (scanProjects w)
        = before ++ snd (findProjects VEGA_PATH (discoveryTree w))
            ++ between ++ snd (findProjects VEGA_PATH (discoveryTree w))
            ++ after.
Proof.
  intros Root Write Same.
  destruct (scanProjects_processed w Root) as [Processed _].
  rewrite Processed. rewrite (scanProjects_unfold w Root), Write, Same.
  eexists. split; [done|]. cbn [written trace].
  unfold generateResult.
  destruct (findProjects VEGA_PATH (discoveryTree w)) as [projects found].
  cbn [fst snd totalProjects]. split; [done|]. split.
  { rewrite !in_app_iff. simpl. tauto. }
  eexists [_; _], (_ :: _), _.
  rewrite <- !app_assoc. simpl. reflexivity.
Qed.

(** ** From the manifests to the report *)

(** X17. A manifest that declares nothing changes nothing: when neither
    group of a parsed manifest has an entry (the key is missing, or its
    value is falsy or has no entries), both mappings are returned as they
    were, without a warning, unless the manifest is [null], which gives one
    warning, for the error of reading a property of [null]. *)
Theorem empty_manifest_changes_nothing (manifestAt : path -> manifestFile)
    (projectPath : path) (packageJson : json) (d dv : gmap string string) :
  manifestAt (pathJoin projectPath "package.json") = Parses packageJson ->
  declared Runtime packageJson = [] ->
  declared Development packageJson = [] ->
  exists events,
    processProject manifestAt projectPath d dv
    = (d, dv, ReadFile (pathJoin projectPath "package.json") :: events)
    /\ match packageJson with
       | JNull =>
           exists message,
             events = [Console (CouldNotProcess
                                  (pathJoin projectPath "package.json") message)]
       | _ => events = []
       end.
Proof.
  intros File R D.
  destruct (processProject_spec manifestAt projectPath d dv)
    as (events & E & Warn).
  rewrite File in E, Warn. exists events.
  assert (seenIn Runtime (Parses packageJson) = []) as SR
    by (simpl; by rewrite R).
  assert (seenIn Development (Parses packageJson) = []) as SD
    by (simpl; rewrite R, D; by destruct (allStrings [])).
  rewrite SR, SD in E. split; [exact E|].
  unfold processedSuccessfully in Warn. rewrite R, D in Warn.
  by destruct packageJson.
Qed.

Lemma In_stringPrefix_inv (entries : list (string * json)) (name v : string) :
  In (name, v) (stringPrefix entries) ->
  exists raw, In (name, JString raw) entries /\ v = cleanVersion raw.
Proof.
  induction entries as [|[n version] entries IH]; simpl; [done|].
  destruct version; simpl; try done.
  intros [[= <- <-]|H].
  - eexists. split; [by left|done].
  - destruct (IH H) as (raw & Hin & ->). exists raw. split; [by right|done].
Qed.

Lemma seen_inv (g : group) (manifestAt : path -> manifestFile)
    (projects : list path) (name v : string) :
  In (name, v) (seen g manifestAt projects) ->
  exists projectPath packageJson raw,
    In projectPath projects
    /\ manifestAt (pathJoin projectPath "package.json") = Parses packageJson
    /\ In (name, JString raw) (declared g packageJson)
    /\ v = cleanVersion raw.
Proof.
  unfold seen. rewrite in_flat_map. intros (projectPath & Hp & H).
  destruct (manifestAt (pathJoin projectPath "package.json"))
    as [| |packageJson] eqn:File; try done.
  assert (In (name, v) (stringPrefix (declared g packageJson))) as H'.
  { destruct g; simpl in H; [done|].
    by destruct (allStrings (declared Runtime packageJson)). }
  destruct (In_stringPrefix_inv _ _ _ H') as (raw & Hraw & ->).
  by exists projectPath, packageJson, raw.
Qed.

Lemma generateResult_groups (tree : fsnode) (now : string)
    (d dv : gmap string string) (root : path) (g : group) :
  groupOf g (dependencies (fst (generateResult tree now d dv root)),
             devDependencies (fst (generateResult tree now d dv root)))
  = caretPrefixed (groupOf g (d, dv)).
Proof.
  unfold generateResult. destruct (findProjects root tree). by destruct g.
Qed.

Lemma processProjects_group (manifestAt : path -> manifestFile)
    (projects : list path) (g : group) :
  groupOf g (fst (processProjects manifestAt projects ∅ ∅))
  = mergeAll (seen g manifestAt projects) ∅.
Proof. rewrite processProjects_maps. by destruct g. Qed.

(** X18. A written report holds only what manifests declare: every value
    under a name in a group of the report is [^] followed by the cleaned
    form of a version string that the manifest of a discovered project
    declares under that name in that group. *)
Theorem report_values_come_from_manifests (w : world) (result : report)
    (g : group) (name value : string) :
  written (scanProjects w) = Some result ->
  groupOf g (dependencies result, devDependencies result) !! name = Some value ->
  exists projectPath packageJson raw,
    In projectPath (fst (findProjects VEGA_PATH (discoveryTree w)))
    /\ manifestAt w (pathJoin projectPath "package.json") = Parses packageJson
    /\ In (name, JString raw) (declared g packageJson)
    /\ value = "^" +:+ cleanVersion raw.
Proof.
  intros Written Held.
  destruct (rootExists w) eqn:Root;
    [|unfold scanProjects in Written; by rewrite Root in Written].
  rewrite (scanProjects_unfold w Root) in Written.
  destruct (writeFailure w); [done|]. injection Written as <-.
  rewrite generateResult_groups in Held.
  rewrite <- surjective_pairing, processProjects_group in Held.
  rewrite lookup_caretPrefixed in Held.
  destruct (decide (name = "__proto__")); [done|].
  pose proof (mergeAll_lookup
                (seen g (manifestAt w)
                   (fst (findProjects VEGA_PATH (discoveryTree w)))) ∅ name)
    as L.
  destruct (mergeAll _ ∅ !! name) as [v|]; [|done].
  injection Held as <-. rewrite lookup_empty in L.
  apply firstHighest_In, In_versionsOf, seen_inv in L.
  destruct L as (projectPath & packageJson & raw & Hp & File & Hraw & ->).
  by exists projectPath, packageJson, raw.
Qed.

(** X19. A written report misses nothing: for every version string that
    the successfully processed manifest of a discovered project declares
    under a name other than [__proto__], the report holds under that name,
    in the same group, [^] followed by a version that the comparator does
    not rank below the cleaned declared one. *)
Theorem declared_versions_reach_the_report (w : world)
    (projectPath : path) (packageJson : json) (g : group) (name raw : string) :
  rootExists w = true -> writeFailure w = None ->
  In projectPath (fst (findProjects VEGA_PATH (discoveryTree w))) ->
  manifestAt w (pathJoin projectPath "package.json") = Parses packageJson ->
  processedSuccessfully (Parses packageJson) = true ->
  In (name, JString raw) (declared g packageJson) ->
  name <> "__proto__" ->
  exists result v,
    written (scanProjects w) = Some result
    /\ groupOf g (dependencies result, devDependencies result) !! name
       = Some ("^" +:+ v)
    /\ isVersionHigher (cleanVersion raw) v = false.
Proof.
  intros Root Write Hp File Ok Hraw Plain.
  rewrite (scanProjects_unfold w Root), Write.
  assert (In (name, cleanVersion raw)
            (seen g (manifestAt w)
               (fst (findProjects VEGA_PATH (discoveryTree w))))) as Met.
  { unfold seen. apply in_flat_map. exists projectPath. split; [done|].
    rewrite File. by apply seenIn_declared. }
  destruct (mergeAll_covers _ ∅ _ _ Met) as (v & Hv & Low).
  eexists _, v. split; [done|]. split; [|done].
  rewrite generateResult_groups.
  rewrite <- surjective_pairing, processProjects_group.
  rewrite lookup_caretPrefixed.
  destruct (decide (name = "__proto__")); [done|]. by rewrite Hv.
Qed.

End Scanner.

(** * The properties on the concrete run *)



(** C3 (as stated) fails on the concrete tree: the root directly contains a
    manifest, yet it is not recorded as a project (and is listed, and the
    projects below it are returned). *)
Lemma root_with_manifest_is_entered :
  ~ neverDescendsIntoProjects VEGA_PATH scenarioTree.
Proof.
  intros Never.
  destruct (Never VEGA_PATH (or_introl (conj eq_refl eq_refl))) as (Recorded & _).
  vm_compute in Recorded.
  repeat (destruct Recorded as [Recorded|Recorded]; [discriminate|]).
  destruct Recorded.
Qed.

Lemma manifest_directory_is_leaf_witness :
  uniqueNames scenarioTree = true
  /\ foundManifestIn (snd (findProjects VEGA_PATH scenarioTree)) projectA
  /\ strictlyBelow VEGA_PATH projectA
  /\ treatedAsLeaf (fst (findProjects VEGA_PATH scenarioTree))
       (snd (findProjects VEGA_PATH scenarioTree)) projectA.
Proof.
  assert (uniqueNames scenarioTree = true) as Unique by (vm_compute; reflexivity).
  assert (foundManifestIn (snd (findProjects VEGA_PATH scenarioTree)) projectA)
    as Found by (vm_compute; tauto).
  exact (conj Unique
           (conj Found
              (manifest_directory_is_leaf VEGA_PATH scenarioTree projectA
                 Unique Found))).
Defined.

Lemma merge_order_independent_witness :
  Permutation
    (concat [[("lib", "^1.2.0"); ("tool", "~2.0")]; [("lib", "1.5.0")]])
    (concat [[("lib", "1.5.0")]; [("tool", "~2.0"); ("lib", "^1.2.0")]])
  /\ totallyOrders decimalNumber
       (concat [[("lib", "^1.2.0"); ("tool", "~2.0")]; [("lib", "1.5.0")]])
  /\ mergeGroups decimalNumber
       [[("lib", "^1.2.0"); ("tool", "~2.0")]; [("lib", "1.5.0")]] ∅
     = mergeGroups decimalNumber
         [[("lib", "1.5.0")]; [("tool", "~2.0"); ("lib", "^1.2.0")]] ∅.
Proof.
  assert (Permutation
            (concat [[("lib", "^1.2.0"); ("tool", "~2.0")]; [("lib", "1.5.0")]])
            (concat [[("lib", "1.5.0")]; [("tool", "~2.0"); ("lib", "^1.2.0")]]))
    as Perm.
  { simpl. apply Permutation_sym.
    apply (Permutation_cons_app [("lib", "^1.2.0"); ("tool", "~2.0")] []
             ("lib", "1.5.0")).
    apply perm_swap. }
  assert (totallyOrders decimalNumber
            (concat [[("lib", "^1.2.0"); ("tool", "~2.0")]; [("lib", "1.5.0")]]))
    as Total.
  { intros e1 e2 [<-|[<-|[<-|[]]]] [<-|[<-|[<-|[]]]] Differ;
      try (by destruct Differ);
      first [left; vm_compute; reflexivity | right; vm_compute; reflexivity]. }
  exact (conj Perm (conj Total (merge_order_independent decimalNumber _ _ Perm Total))).
Defined.

Lemma failed_manifest_is_skipped_witness :
  rootExists scenarioWorld = true
  /\ fst (findProjects VEGA_PATH (discoveryTree scenarioWorld))
     = [projectA; projectB] ++ projectC :: []
  /\ failsToLoad (manifestAt scenarioWorld (pathJoin projectC "package.json"))
     = Some "Unexpected end of JSON input"
  /\ In (Console (CouldNotProcess (pathJoin projectC "package.json")
                    "Unexpected end of JSON input"))
       (trace (scanProjects decimalNumber scenarioWorld))
  /\ exitCode (scanProjects decimalNumber scenarioWorld) = 0.
Proof.
  assert (rootExists scenarioWorld = true) as Root by reflexivity.
  assert (fst (findProjects VEGA_PATH (discoveryTree scenarioWorld))
          = [projectA; projectB] ++ projectC :: []) as Found
    by (vm_compute; reflexivity).
  assert (failsToLoad (manifestAt scenarioWorld (pathJoin projectC "package.json"))
          = Some "Unexpected end of JSON input") as Fails
    by (vm_compute; reflexivity).
  pose proof (failed_manifest_is_skipped decimalNumber scenarioWorld
                [projectA; projectB] [] projectC "Unexpected end of JSON input"
                Root Found Fails) as (_ & _ & Warned & _ & Done).
  exact (conj Root (conj Found (conj Fails
           (conj Warned (proj1 (Done eq_refl)))))).
Defined.

(** C6. The code when [statSync] throws on an item of a listing. Whatever
    is listed after the item plays no part: the walk is the one of the
    listing cut after that item. On a root that lists project [A], a link
    whose target is gone and project [B], in this order, the walk returns
    [A] alone and prints one warning, which names the root: the directory
    named in the warning contributes a project, and project [B], which
    lies in another directory than the link, is not returned. When the item
    between them is instead a directory whose listing fails, the error is
    caught in the call on that directory and [B] is returned. *)
Theorem failed_stat_drops_later_projects :
  (forall dir manifest before name message after,
      findProjects dir
        (Dir manifest (before ++ (name, StatError message) :: after))
      = findProjects dir
          (Dir manifest (before ++ [(name, StatError message)])))
  /\ findProjects VEGA_PATH danglingLinkTree
     = ([projectA],
        [ReadDir VEGA_PATH None;
         Stat projectA None;
         Exists (pathJoin projectA "package.json") true;
         Stat (pathJoin VEGA_PATH "broken")
           (Some "ENOENT: no such file or directory");
         Console (CouldNotReadDirectory VEGA_PATH
                    "ENOENT: no such file or directory")])
  /\ ~ In projectB (fst (findProjects VEGA_PATH danglingLinkTree))
  /\ fst (findProjects VEGA_PATH lockedItemTree) = [projectA; projectB].
Proof.
  split.
  { intros dir manifest before name message after.
    rewrite !findProjects_Dir. by rewrite scanItems_after_failed_stat. }
  split; [reflexivity|]. split; [|reflexivity].
  intros [H|[]]. discriminate H.
Qed.

(** C7. The code on a manifest that declares the dependency [__proto__]
    at version [1.0.0]: the runtime mapping stores the cleaned version under
    that name and the summary counts one dependency, but the report's
    [dependencies] has no value under that name, and no key at all. *)
Theorem proto_entry_is_not_reported :
  let '(stored, _, _) :=
    processProjects decimalNumber protoManifests [projectA] ∅ ∅ in
  let result :=
    fst (generateResult scenarioTree "2024-05-01T10:00:00.000Z" stored ∅
           VEGA_PATH) in
  stored !! "__proto__" = Some "1.0.0"
  /\ dependencies result !! "__proto__" = None
  /\ totalDependencies (summary result) = 1
  /\ size (dependencies result) = 0.
Proof. vm_compute. repeat split; reflexivity. Qed.

Lemma report_versions_round_trip_example :
  groupOf Runtime
    (dependencies (fst (generateResult scenarioTree "2024-05-01T10:00:00.000Z"
                          scenarioDependencies ∅ VEGA_PATH)),
     devDependencies (fst (generateResult scenarioTree "2024-05-01T10:00:00.000Z"
                             scenarioDependencies ∅ VEGA_PATH))) !! "lib"
  = Some "^1.5.0"
  /\ cleanVersion "^1.5.0" = "1.5.0".
Proof.
  apply (report_versions_round_trip scenarioTree "2024-05-01T10:00:00.000Z"
           scenarioDependencies ∅ VEGA_PATH Runtime "lib" "1.5.0");
    [discriminate|vm_compute; reflexivity].
Qed.

Lemma cleanVersion_strips_one_operator_witness :
  leadingOperators "^1.2.3" <= 1
  /\ cleanVersion (cleanVersion "^1.2.3") = cleanVersion "^1.2.3".
Proof.
  assert (leadingOperators "^1.2.3" <= 1) as One by (vm_compute; lia).
  exact (conj One (proj2 (cleanVersion_strips_one_operator "^1.2.3") One)).
Defined.

Lemma totalProjects_is_recounted_witness :
  rootExists scenarioWorld = true
  /\ writeFailure scenarioWorld = None
  /\ exists result,
      written (scanProjects decimalNumber scenarioWorld) = Some result
      /\ totalProjects result
         = length (fst (findProjects VEGA_PATH (reportTree scenarioWorld)))
      /\ In (Console (FoundProjects
                        (length (fst (findProjects VEGA_PATH
                                        (discoveryTree scenarioWorld))))))
           (trace (scanProjects decimalNumber scenarioWorld)).
Proof.
  assert (rootExists scenarioWorld = true) as Root by reflexivity.
  assert (writeFailure scenarioWorld = None) as Write by reflexivity.
  exact (conj Root (conj Write
           (proj2 (totalProjects_is_recounted decimalNumber scenarioWorld)
              Root Write))).
Defined.

Lemma root_is_never_a_project_witness :
  allStatted []
  /\ In projectA
       (fst (findProjects VEGA_PATH
               (Dir true [("A", Dir true [("B", Dir true [])]);
                          ("notes.txt", File)]))).
Proof.
  assert (allStatted []) as Statted by (intros item message []).
  pose proof (root_is_never_a_project VEGA_PATH true
                [("A", Dir true [("B", Dir true [])]); ("notes.txt", File)])
    as (_ & _ & _ & _ & Examined).
  exact (conj Statted
           (proj2 (proj2 (Examined [] "A" (Dir true [("B", Dir true [])])
                            [("notes.txt", File)] eq_refl Statted))
              eq_refl)).
Defined.

(** * The further properties on the concrete run *)

Lemma comparator_is_strict_weak_order_witness :
  isVersionHigher decimalNumber "1.10.0" "1.9" = true
  /\ isVersionHigher decimalNumber "1.9" "1.2" = true
  /\ isVersionHigher decimalNumber "1.10.0" "1.2" = true.
Proof.
  assert (isVersionHigher decimalNumber "1.10.0" "1.9" = true) as H1
    by (vm_compute; reflexivity).
  assert (isVersionHigher decimalNumber "1.9" "1.2" = true) as H2
    by (vm_compute; reflexivity).
  exact (conj H1 (conj H2
           (proj1 (comparator_is_strict_weak_order decimalNumber
                     "1.10.0" "1.9" "1.2") H1 H2))).
Defined.

Lemma trailing_zero_component_is_ignored_witness :
  dotFree "0" = true
  /\ isFalsyNumber (decimalNumber "0") = true
  /\ isVersionHigher decimalNumber ("1.2" +:+ String "." "0") "1.1.9"
     = isVersionHigher decimalNumber "1.2" "1.1.9"
  /\ isVersionHigher decimalNumber "1.1.9" ("1.2" +:+ String "." "0")
     = isVersionHigher decimalNumber "1.1.9" "1.2".
Proof.
  assert (dotFree "0" = true) as Free by reflexivity.
  assert (isFalsyNumber (decimalNumber "0") = true) as Falsy
    by (vm_compute; reflexivity).
  exact (conj Free (conj Falsy
           (trailing_zero_component_is_ignored decimalNumber "1.2" "0" "1.1.9"
              Free Falsy))).
Defined.

Lemma merging_never_lowers_witness :
  groupOf Runtime (scenarioDependencies, ∅) !! "lib" = Some "1.5.0"
  /\ exists v',
      groupOf Runtime
        (fst (processProjects decimalNumber scenarioManifests
                [projectA; projectB; projectC] scenarioDependencies ∅))
        !! "lib" = Some v'
      /\ (v' = "1.5.0" \/ isVersionHigher decimalNumber v' "1.5.0" = true).
Proof.
  assert (groupOf Runtime (scenarioDependencies, ∅) !! "lib" = Some "1.5.0")
    as Before by (vm_compute; reflexivity).
  exact (conj Before
           (merging_never_lowers decimalNumber scenarioManifests
              [projectA; projectB; projectC] scenarioDependencies ∅
              Runtime "lib" "1.5.0" Before)).
Defined.

Lemma merging_again_changes_nothing_witness :
  (forall q, In q [projectB; projectA] -> In q [projectA; projectB; projectC])
  /\ fst (processProjects decimalNumber scenarioManifests
            ([projectA; projectB; projectC] ++ [projectB; projectA]) ∅ ∅)
     = fst (processProjects decimalNumber scenarioManifests
              [projectA; projectB; projectC] ∅ ∅).
Proof.
  assert (forall q, In q [projectB; projectA] ->
                    In q [projectA; projectB; projectC]) as Known
    by (simpl; tauto).
  exact (conj Known
           (proj2 (merging_again_changes_nothing decimalNumber scenarioManifests
                     [projectA; projectB; projectC] [projectB; projectA] ∅ ∅)
              Known)).
Defined.

Lemma project_order_does_not_matter_witness :
  Permutation [projectA; projectB; projectC] [projectB; projectA; projectC]
  /\ noTiesAmong decimalNumber
       (seen Runtime scenarioManifests [projectA; projectB; projectC])
  /\ noTiesAmong decimalNumber
       (seen Development scenarioManifests [projectA; projectB; projectC])
  /\ fst (processProjects decimalNumber scenarioManifests
            [projectA; projectB; projectC] ∅ ∅)
     = fst (processProjects decimalNumber scenarioManifests
              [projectB; projectA; projectC] ∅ ∅).
Proof.
  assert (Permutation [projectA; projectB; projectC]
            [projectB; projectA; projectC]) as Perm by apply perm_swap.
  assert (noTiesAmong decimalNumber
            (seen Runtime scenarioManifests [projectA; projectB; projectC]))
    as Runtime.
  { intros name v1 v2 H1 H2 Differ. vm_compute in H1, H2.
    destruct H1 as [[= <- <-]|[[= <- <-]|[]]];
      destruct H2 as [[= <-]|[[= <-]|[]]];
      try (by destruct Differ);
      first [left; vm_compute; reflexivity | right; vm_compute; reflexivity]. }
  assert (noTiesAmong decimalNumber
            (seen Development scenarioManifests [projectA; projectB; projectC]))
    as Development.
  { intros name v1 v2 H1 H2 Differ. vm_compute in H1, H2.
    destruct H1 as [[= <- <-]|[]]; destruct H2 as [[= <-]|[]].
    by destruct Differ. }
  exact (conj Perm (conj Runtime (conj Development
           (project_order_does_not_matter decimalNumber scenarioManifests
              _ _ Perm Runtime Development)))).
Defined.

Lemma manifest_error_keeps_earlier_entries_witness :
  (fun _ : path => Parses manifestWithBadVersion)
    (pathJoin projectA "package.json") = Parses manifestWithBadVersion
  /\ allStrings (declared Runtime manifestWithBadVersion) = false
  /\ exists message,
      processProject decimalNumber (fun _ => Parses manifestWithBadVersion)
        projectA ∅ ∅
      = (mergeAll decimalNumber
           (stringPrefix (declared Runtime manifestWithBadVersion)) ∅,
         ∅,
         [ReadFile (pathJoin projectA "package.json");
          Console (CouldNotProcess (pathJoin projectA "package.json") message)]).
Proof.
  assert ((fun _ : path => Parses manifestWithBadVersion)
            (pathJoin projectA "package.json") = Parses manifestWithBadVersion)
    as File by reflexivity.
  assert (allStrings (declared Runtime manifestWithBadVersion) = false) as Bad
    by reflexivity.
  exact (conj File (conj Bad
           (proj1 (manifest_error_keeps_earlier_entries decimalNumber
                     (fun _ => Parses manifestWithBadVersion) projectA
                     manifestWithBadVersion ∅ ∅ File) Bad))).
Defined.

Lemma projects_are_the_shallowest_manifests_witness :
  statsSucceed scenarioTree = true
  /\ shallowest scenarioTree ["A"]
  /\ In (VEGA_PATH ++ ["A"]) (fst (findProjects VEGA_PATH scenarioTree)).
Proof.
  assert (statsSucceed scenarioTree = true) as Stats by reflexivity.
  assert (shallowest scenarioTree ["A"]) as Deep.
  { apply (shallowest_here _ _ "A" (Dir true [("B", Dir true [])]));
      [by left|reflexivity]. }
  exact (conj Stats (conj Deep
           (proj2 (projects_are_the_shallowest_manifests VEGA_PATH scenarioTree)
              Stats ["A"] Deep))).
Defined.

Lemma projects_are_distinct_and_not_nested_witness :
  uniqueNames scenarioTree = true
  /\ NoDup (fst (findProjects VEGA_PATH scenarioTree))
  /\ forall p q,
      In p (fst (findProjects VEGA_PATH scenarioTree)) ->
      In q (fst (findProjects VEGA_PATH scenarioTree)) ->
      p `prefix_of` q -> p = q.
Proof.
  assert (uniqueNames scenarioTree = true) as Unique by (vm_compute; reflexivity).
  exact (conj Unique
           (proj2 (projects_are_distinct_and_not_nested VEGA_PATH scenarioTree)
              Unique)).
Defined.

Lemma unchanged_tree_counts_agree_witness :
  rootExists steadyWorld = true
  /\ writeFailure steadyWorld = None
  /\ reportTree steadyWorld = discoveryTree steadyWorld
  /\ exists result,
      written (scanProjects decimalNumber steadyWorld) = Some result
      /\ totalProjects result
         = length (omap processedPath
                     (trace (scanProjects decimalNumber steadyWorld)))
      /\ In (Console (FoundProjects (totalProjects result)))
           (trace (scanProjects decimalNumber steadyWorld))
      /\ exists before between after,
          trace (scanProjects decimalNumber steadyWorld)
          = before ++ snd (findProjects VEGA_PATH (discoveryTree steadyWorld))
              ++ between
              ++ snd (findProjects VEGA_PATH (discoveryTree steadyWorld))
              ++ after.
Proof.
  assert (rootExists steadyWorld = true) as Root by reflexivity.
  assert (writeFailure steadyWorld = None) as Write by reflexivity.
  assert (reportTree steadyWorld = discoveryTree steadyWorld) as Same
    by reflexivity.
  exact (conj Root (conj Write (conj Same
           (unchanged_tree_counts_agree decimalNumber steadyWorld
              Root Write Same)))).
Defined.

Lemma empty_manifest_changes_nothing_witness :
  (fun _ : path => Parses (JObject [("name", JString "app")]))
    (pathJoin projectA "package.json")
  = Parses (JObject [("name", JString "app")])
  /\ declared Runtime (JObject [("name", JString "app")]) = []
  /\ declared Development (JObject [("name", JString "app")]) = []
  /\ exists events,
      processProject decimalNumber
        (fun _ => Parses (JObject [("name", JString "app")]))
        projectA scenarioDependencies ∅
      = (scenarioDependencies, ∅,
         ReadFile (pathJoin projectA "package.json") :: events)
      /\ events = [].
Proof.
  assert ((fun _ : path => Parses (JObject [("name", JString "app")]))
            (pathJoin projectA "package.json")
          = Parses (JObject [("name", JString "app")])) as File by reflexivity.
  assert (declared Runtime (JObject [("name", JString "app")]) = []) as R
    by reflexivity.
  assert (declared Development (JObject [("name", JString "app")]) = []) as D
    by reflexivity.
  exact (conj File (conj R (conj D
           (empty_manifest_changes_nothing decimalNumber
              (fun _ => Parses (JObject [("name", JString "app")]))
              projectA (JObject [("name", JString "app")])
              scenarioDependencies ∅ File R D)))).
Defined.

Lemma declared_versions_reach_the_report_witness :
  rootExists scenarioWorld = true
  /\ writeFailure scenarioWorld = None
  /\ In projectA (fst (findProjects VEGA_PATH (discoveryTree scenarioWorld)))
  /\ manifestAt scenarioWorld (pathJoin projectA "package.json")
     = Parses manifestA
  /\ processedSuccessfully (Parses manifestA) = true
  /\ In ("lib", JString "^1.2.0") (declared Runtime manifestA)
  /\ "lib" <> "__proto__"
  /\ exists result v,
      written (scanProjects decimalNumber scenarioWorld) = Some result
      /\ groupOf Runtime (dependencies result, devDependencies result) !! "lib"
         = Some ("^" +:+ v)
      /\ isVersionHigher decimalNumber (cleanVersion "^1.2.0") v = false.
Proof.
  assert (rootExists scenarioWorld = true) as Root by reflexivity.
  assert (writeFailure scenarioWorld = None) as Write by reflexivity.
  assert (In projectA
            (fst (findProjects VEGA_PATH (discoveryTree scenarioWorld))))
    as Hp by (vm_compute; tauto).
  assert (manifestAt scenarioWorld (pathJoin projectA "package.json")
          = Parses manifestA) as File by (vm_compute; reflexivity).
  assert (processedSuccessfully (Parses manifestA) = true) as Ok
    by reflexivity.
  assert (In ("lib", JString "^1.2.0") (declared Runtime manifestA)) as Hraw
    by (by left).
  assert ("lib" <> "__proto__") as Plain by discriminate.
  exact (conj Root (conj Write (conj Hp (conj File (conj Ok (conj Hraw
           (conj Plain
              (declared_versions_reach_the_report decimalNumber scenarioWorld
                 projectA manifestA Runtime "lib" "^1.2.0"
                 Root Write Hp File Ok Hraw Plain)))))))).
Defined.

Lemma report_values_come_from_manifests_witness :
  written (scanProjects decimalNumber scenarioWorld)
  = Some (fst (generateResult (reportTree scenarioWorld) (now scenarioWorld)
                 (fst (fst (processProjects decimalNumber scenarioManifests
                              [projectA; projectB; projectC] ∅ ∅)))
                 (snd (fst (processProjects decimalNumber scenarioManifests
                              [projectA; projectB; projectC] ∅ ∅)))
                 VEGA_PATH))
  /\ exists projectPath packageJson raw,
      In projectPath (fst (findProjects VEGA_PATH (discoveryTree scenarioWorld)))
      /\ manifestAt scenarioWorld (pathJoin projectPath "package.json")
         = Parses packageJson
      /\ In ("lib", JString raw) (declared Runtime packageJson)
      /\ "^1.5.0" = "^" +:+ cleanVersion raw.
Proof.
  assert (written (scanProjects decimalNumber scenarioWorld)
          = Some (fst (generateResult (reportTree scenarioWorld)
                         (now scenarioWorld)
                         (fst (fst (processProjects decimalNumber
                                      scenarioManifests
                                      [projectA; projectB; projectC] ∅ ∅)))
                         (snd (fst (processProjects decimalNumber
                                      scenarioManifests
                                      [projectA; projectB; projectC] ∅ ∅)))
                         VEGA_PATH))) as Written by (vm_compute; reflexivity).
  exact (conj Written
           (report_values_come_from_manifests decimalNumber scenarioWorld _
              Runtime "lib" "^1.5.0" Written
              ltac:(vm_compute; reflexivity))).
Defined.

Lemma unreadable_directory_is_skipped_witness :
  In (ReadDir (pathJoin VEGA_PATH "locked") (Some "EACCES: permission denied"))
    (snd (findProjects VEGA_PATH scenarioTree))
  /\ uniqueNames scenarioTree = true
  /\ In (Console (CouldNotReadDirectory (pathJoin VEGA_PATH "locked")
                    "EACCES: permission denied"))
       (snd (findProjects VEGA_PATH scenarioTree))
  /\ (forall q, In q (fst (findProjects VEGA_PATH scenarioTree)) ->
                ~ pathJoin VEGA_PATH "locked" `prefix_of` q).
Proof.
  assert (In (ReadDir (pathJoin VEGA_PATH "locked")
                (Some "EACCES: permission denied"))
            (snd (findProjects VEGA_PATH scenarioTree))) as Failed
    by (vm_compute; tauto).
  assert (uniqueNames scenarioTree = true) as Unique by (vm_compute; reflexivity).
  pose proof (proj1 (proj2 (unreadable_directory_is_skipped VEGA_PATH scenarioTree))
                (pathJoin VEGA_PATH "locked") "EACCES: permission denied" Failed)
    as (Warned & Barren).
  exact (conj Failed (conj Unique (conj Warned (Barren Unique)))).
Defined.

(** * Remarks *)

(** The root of the concrete run holds a manifest: it is listed, it is not
    among the projects, and projects below it are. *)
Example root_of_the_concrete_run :
  hasManifest scenarioTree = true
  /\ In (ReadDir VEGA_PATH None) (snd (findProjects VEGA_PATH scenarioTree))
  /\ fst (findProjects VEGA_PATH scenarioTree) = [projectA; projectB; projectC].
Proof. vm_compute. repeat split; tauto. Qed.

(** The merger keeps the first of two versions that compare equal, so the
    order matters when the comparator does not tell two distinct versions
    apart. *)
Example ties_keep_the_first_seen :
  mergeGroups decimalNumber [[("lib", "1.0")]; [("lib", "1.0.0")]] ∅ !! "lib"
    = Some "1.0"
  /\ mergeGroups decimalNumber [[("lib", "1.0.0")]; [("lib", "1.0")]] ∅ !! "lib"
     = Some "1.0.0".
Proof. vm_compute. split; reflexivity. Qed.

(** A version that is not a string ends the processing of its manifest with
    a warning; the entries merged before it stay in the mapping. *)
Example entries_before_a_bad_version_stay :
  processProject decimalNumber
    (fun _ => Parses (JObject [("dependencies",
                                JObject [("lib", JString "^1.2.0");
                                         ("other", JNumber jsZero)])]))
    projectA ∅ ∅
  = ({["lib" := "1.2.0"]}, ∅,
     [ReadFile (pathJoin projectA "package.json");
      Console (CouldNotProcess (pathJoin projectA "package.json")
                 "version.replace is not a function")]).
Proof. vm_compute. reflexivity. Qed.

(** In the concrete run a project appears between the two walks: the run
    announces three projects after discovery and reports four. *)
Example recount_differs_from_discovery :
  In (Console (FoundProjects 3)) (trace (scanProjects decimalNumber scenarioWorld))
  /\ totalProjects <$> written (scanProjects decimalNumber scenarioWorld) = Some 4.
Proof. vm_compute. split; [tauto|reflexivity]. Qed.
